(** * The background dispatcher of ChatGPTBox (src/background/index.mjs)

    A shallow embedding of the background script: the credential cache and
    [getAccessToken], the port message listener that dispatches a question to
    one of four backend families, and the context-menu rebuild.

    The script is asynchronous JavaScript.  One run of a listener is modelled
    as a computation in a state-and-exception monad over an explicit [State]
    (clock, cache, object heap, uuid counter, trace of effects); everything
    the script imports is an oracle of the [World] the computation runs in.
    Interleaving of several listener runs is outside the model: each run is
    taken from its first statement to its last. *)

From Stdlib Require Import ZArith Ascii String List Bool Lia.
From stdpp Require Import gmap strings list fin_maps.

Open Scope string_scope.
Open Scope list_scope.

(** ** JavaScript values *)

(** The values the script handles: the primitives, and references to objects
    kept in the heap.  Numbers are restricted to integers; the script only
    tests values for truthiness and passes them on. *)
Inductive jsval : Type :=
| VUndefined
| VNull
| VBool (b : bool)
| VNum (n : Z)
| VStr (s : string)
| VObj (ref : nat).

#[global] Instance jsval_eq_dec : EqDecision jsval.
Proof. solve_decision. Defined.

(** ToBoolean: what [if (v)] and [!v] test. *)
Definition truthy (v : jsval) : bool :=
  match v with
  | VUndefined | VNull => false
  | VBool b => b
  | VNum n => negb (n =? 0)%Z
  | VStr s => negb (String.eqb s "")
  | VObj _ => true
  end.

(** [v == null]: true of [null] and [undefined] only. *)
Definition loose_eq_null (v : jsval) : bool :=
  match v with
  | VUndefined | VNull => true
  | _ => false
  end.

(** Reading a property of an object: a missing property reads [undefined]. *)
Definition prop (o : gmap string jsval) (k : string) : jsval :=
  default VUndefined (o !! k).

(** ** Strings *)

Fixpoint starts_with (sub s : string) : bool :=
  match sub, s with
  | EmptyString, _ => true
  | String a sub', String b s' => Ascii.eqb a b && starts_with sub' s'
  | String _ _, EmptyString => false
  end.

(** [s.includes(sub)] *)
Fixpoint includes (s sub : string) : bool :=
  starts_with sub s ||
  match s with
  | EmptyString => false
  | String _ s' => includes s' sub
  end.

(** [s.replace(pat, '')] with a string pattern: the first occurrence of
    [pat] is removed, later ones stay. *)
Fixpoint drop_chars (n : nat) (s : string) : string :=
  match n, s with
  | O, _ => s
  | S n', String _ s' => drop_chars n' s'
  | S _, EmptyString => EmptyString
  end.

Fixpoint replace_first (s pat : string) : string :=
  if starts_with pat s then drop_chars (String.length pat) s
  else match s with
       | EmptyString => EmptyString
       | String a s' => String a (replace_first s' pat)
       end.

(** [arr.includes(x)] on an array of strings. *)
Definition array_includes (arr : list string) (x : string) : bool :=
  existsb (String.eqb x) arr.

(** ** Exceptions *)

(** A thrown value is an [Error] object; [message] is its message text. *)
Record Error : Type := mkError { message : string }.

Inductive result (A : Type) : Type :=
| Return (a : A)
| Throw (e : Error).
Arguments Return {A} a.
Arguments Throw {A} e.

(** ** The credential cache *)

(** Modelled from the spec: the class [ExpiryMap] of the package expiry-map
    is imported, not defined under src/.  An entry is kept with the time it
    was stored at; it is readable as long as no more than the map's window
    has passed since then (spec 4.1: "expiry window: 10 seconds from the last
    successful fetch", spec 8: "never returned more than 10 seconds after it
    was stored"). *)
Record Entry : Type := mkEntry { value : jsval; storedAt : Z }.

Definition unexpired (maxAge now : Z) (e : Entry) : bool :=
  (now <=? storedAt e + maxAge)%Z.

Definition expiry_get (maxAge now : Z) (m : gmap string Entry) (k : string) : jsval :=
  match m !! k with
  | Some e => if unexpired maxAge now e then value e else VUndefined
  | None => VUndefined
  end.

Definition expiry_set (now : Z) (m : gmap string Entry) (k : string) (v : jsval)
  : gmap string Entry :=
  <[k := mkEntry v now]> m.

Definition expiry_delete (m : gmap string Entry) (k : string) : gmap string Entry :=
  delete k m.

Definition KEY_ACCESS_TOKEN : string := "accessToken".

(** [new ExpiryMap(10 * 1000)] *)
Definition cache_maxAge : Z := 10 * 1000.

(** ** Configuration, families, effects *)

Record UserConfig : Type := mkConfig {
  modelName : string;
  apiKey : string;
  accessToken : jsval
}.

Inductive Family : Type := WebSession | Completion | ChatCompletion | Custom.

#[global] Instance Family_eq_dec : EqDecision Family.
Proof. solve_decision. Defined.

(** What one run leaves behind, in program order. *)
Inductive Event : Type :=
| EvGetUserConfig
| EvFetch (url : string)
| EvCacheGet (k : string)
| EvCacheSet (k : string) (v : jsval)
| EvCacheDelete (k : string)
| EvUuid (id : string)
| EvBackend (f : Family) (port : nat) (question : jsval)
            (session : gmap string jsval) (args : list jsval)
| EvPost (port : nat) (envelope : gmap string jsval).

Record State : Type := mkState {
  now : Z;                               (* Date.now() *)
  cache : gmap string Entry;             (* const cache *)
  heap : gmap nat (gmap string jsval);   (* the session objects *)
  uuids : nat;                           (* uuidv4() calls so far *)
  trace : list Event
}.

Definition init_state (t : Z) : State := mkState t ∅ ∅ 0 [].

(** The answer of [fetch]: a rejection, or a response with its status and
    what [resp.json()] settles to. *)
Inductive JsonData : Type :=
| DataPrim (v : jsval)                       (* null, a number, an array, ... *)
| DataObject (fields : gmap string jsval).

Inductive JsonBody : Type :=
| BodyInvalid (e : Error)                    (* json() rejects with e *)
| BodyValid (d : JsonData).

Inductive FetchResult : Type :=
| FetchReject (e : Error)
| FetchResponse (status : Z) (body : JsonBody).

(** The answer of a backend capability: the envelopes it posted on the port,
    what it left in the session object, and how it ended. *)
Record BackendResult : Type := mkBackendResult {
  b_posts : list (gmap string jsval);
  b_session : gmap string jsval;
  b_outcome : result unit
}.

(** Everything the script gets from outside: its imports, and the ports
    the browser hands to it.  [postMessage port envelope st] is [None] when
    [port.postMessage(envelope)] delivers the envelope, and the exception it
    throws otherwise (the port has been disconnected). *)
Record World : Type := mkWorld {
  isSafari : bool;
  getUserConfig : State -> UserConfig;
  fetch : string -> State -> FetchResult;
  latency : State -> Z;                  (* how long an await takes *)
  uuidv4 : nat -> string;
  backend : Family -> State -> nat -> jsval -> gmap string jsval -> list jsval
            -> BackendResult;
  postMessage : nat -> gmap string jsval -> State -> option Error
}.

(** ** The monad of one listener run *)

Definition M (A : Type) : Type := State -> result A * State.

Definition ret {A} (a : A) : M A := fun st => (Return a, st).

Definition bind {A B} (c : M A) (k : A -> M B) : M B :=
  fun st =>
    match c st with
    | (Return a, st') => k a st'
    | (Throw e, st') => (Throw e, st')
    end.

Definition throw {A} (e : Error) : M A := fun st => (Throw e, st).

(** [try { c } catch (err) { h err }] *)
Definition try_catch {A} (c : M A) (h : Error -> M A) : M A :=
  fun st =>
    match c st with
    | (Return a, st') => (Return a, st')
    | (Throw e, st') => h e st'
    end.

Notation "'let!' x ':=' c 'in' k" := (bind c (fun x => k))
  (at level 10, x name, c at level 100, k at level 200).
Notation "c ';;' k" := (bind c (fun _ => k))
  (at level 100, k at level 200, right associativity).

Definition log (ev : Event) (st : State) : State :=
  mkState (now st) (cache st) (heap st) (uuids st) (trace st ++ [ev]).

Definition set_now (t : Z) (st : State) : State :=
  mkState t (cache st) (heap st) (uuids st) (trace st).

Definition set_cache (c : gmap string Entry) (st : State) : State :=
  mkState (now st) c (heap st) (uuids st) (trace st).

Definition set_heap (h : gmap nat (gmap string jsval)) (st : State) : State :=
  mkState (now st) (cache st) h (uuids st) (trace st).

Definition set_uuids (n : nat) (st : State) : State :=
  mkState (now st) (cache st) (heap st) n (trace st).

Definition cache_get (k : string) : M jsval :=
  fun st => (Return (expiry_get cache_maxAge (now st) (cache st) k),
             log (EvCacheGet k) st).

Definition cache_set (k : string) (v : jsval) : M unit :=
  fun st => (Return tt,
             log (EvCacheSet k v) (set_cache (expiry_set (now st) (cache st) k v) st)).

Definition cache_delete (k : string) : M unit :=
  fun st => (Return tt,
             log (EvCacheDelete k) (set_cache (expiry_delete (cache st) k) st)).

(** The envelopes a backend posts on its port, in order. *)
Definition post_all (port : nat) (envelopes : list (gmap string jsval)) (st : State)
  : State :=
  fold_left (fun acc e => log (EvPost port e) acc) envelopes st.

(** [obj.k] and [obj.k = v] on the object behind a reference. *)
Definition object_at (r : nat) (st : State) : gmap string jsval :=
  default ∅ (heap st !! r).

Definition obj_get (r : nat) (k : string) : M jsval :=
  fun st => (Return (prop (object_at r st) k), st).

Definition obj_set (r : nat) (k : string) (v : jsval) : M unit :=
  fun st => (Return tt, set_heap (<[r := <[k := v]> (object_at r st)]> (heap st)) st).

(** [data.k] on what [resp.json()] gave: reading a property of [null] or
    [undefined] throws a TypeError, any other primitive has no such
    property. *)
Definition TypeError_read (v : jsval) (k : string) : Error :=
  mkError (String.append "Cannot read properties of "
             (String.append (if decide (v = VNull) then "null" else "undefined")
                (String.append " (reading '" (String.append k "')")))).

Definition member (d : JsonData) (k : string) : M jsval :=
  match d with
  | DataObject fields => ret (prop fields k)
  | DataPrim v => if loose_eq_null v then throw (TypeError_read v k) else ret VUndefined
  end.

Definition session_url : string := "https://chat.openai.com/api/auth/session".
Definition UNAUTHORIZED : Error := mkError "UNAUTHORIZED".
Definition CLOUDFLARE : Error := mkError "CLOUDFLARE".

(** The envelope [{ error: msg }]. *)
Definition error_envelope (msg : string) : gmap string jsval :=
  {[ "error" := VStr msg ]}.

(** A message received on a port: [msg.session] is a session object, or is
    missing ([None] stands for every falsy value of the field). *)
Record Msg : Type := mkMsg { session : option nat }.

Section Dispatcher.

(** The imports of the script: the world it runs in, and the four key lists
    of config/index.mjs, which is not under src/. *)
Variable w : World.
Variables chatgptWebModelKeys gptApiModelKeys
          chatgptApiModelKeys customApiModelKeys : list string.

(** An [await]: the clock moves on while the run is suspended. *)
Definition tick (st : State) : State := set_now (now st + latency w st) st.

(** [await getUserConfig()]; the read is taken to succeed. *)
Definition await_getUserConfig : M UserConfig :=
  fun st => (Return (getUserConfig w st), tick (log EvGetUserConfig st)).

(** [await fetch(url)] *)
Definition await_fetch (url : string) : M (Z * JsonBody) :=
  fun st =>
    let st' := tick (log (EvFetch url) st) in
    match fetch w url st with
    | FetchReject e => (Throw e, st')
    | FetchResponse status body => (Return (status, body), st')
    end.

(** [await resp.json().catch(() => ({}))] *)
Definition await_json_catch (body : JsonBody) : M JsonData :=
  fun st =>
    (Return match body with
            | BodyInvalid _ => DataObject ∅
            | BodyValid d => d
            end, tick st).

(** [port.postMessage(envelope)]: a disconnected port throws, and nothing
    is posted. *)
Definition post (port : nat) (envelope : gmap string jsval) : M unit :=
  fun st =>
    match postMessage w port envelope st with
    | None => (Return tt, log (EvPost port envelope) st)
    | Some e => (Throw e, st)
    end.

(** [uuidv4()] *)
Definition uuid : M string :=
  fun st => let id := uuidv4 w (uuids st) in
            (Return id, log (EvUuid id) (set_uuids (S (uuids st)) st)).

(** [await generateAnswersWith...(port, session.question, session, ...args)] *)
Definition call_backend (f : Family) (port : nat) (question : jsval)
           (sess : nat) (args : list jsval) : M unit :=
  fun st =>
    let s := object_at sess st in
    let r := backend w f st port question s args in
    let st1 := log (EvBackend f port question s args) st in
    let st2 := post_all port (b_posts r) st1 in
    (b_outcome r, tick (set_heap (<[sess := b_session r]> (heap st2)) st2)).

(** Lines 27-50. *)
Definition getAccessToken : M jsval :=
  let! cached := cache_get KEY_ACCESS_TOKEN in
  if truthy cached then cache_get KEY_ACCESS_TOKEN
  else
    (if isSafari w then
       let! userConfig := await_getUserConfig in
       if truthy (accessToken userConfig)
       then cache_set KEY_ACCESS_TOKEN (accessToken userConfig)
       else throw UNAUTHORIZED
     else
       let! resp := await_fetch session_url in
       if (fst resp =? 403)%Z then throw CLOUDFLARE
       else
         let! data := await_json_catch (snd resp) in
         let! token := member data "accessToken" in
         if negb (truthy token) then throw UNAUTHORIZED
         else cache_set KEY_ACCESS_TOKEN token) ;;
    cache_get KEY_ACCESS_TOKEN.

(** Lines 60-92: the body of the [try]. *)
Definition dispatch (port sess : nat) (config : UserConfig) : M unit :=
  if array_includes chatgptWebModelKeys (modelName config) then
    let! token := getAccessToken in
    let! id := uuid in
    obj_set sess "messageId" (VStr id) ;;
    let! parent := obj_get sess "parentMessageId" in
    (if loose_eq_null parent
     then let! id' := uuid in obj_set sess "parentMessageId" (VStr id')
     else ret tt) ;;
    let! question := obj_get sess "question" in
    call_backend WebSession port question sess [token]
  else if array_includes gptApiModelKeys (modelName config) then
    let! question := obj_get sess "question" in
    call_backend Completion port question sess
                 [VStr (apiKey config); VStr (modelName config)]
  else if array_includes chatgptApiModelKeys (modelName config) then
    let! question := obj_get sess "question" in
    call_backend ChatCompletion port question sess
                 [VStr (apiKey config); VStr (modelName config)]
  else if array_includes customApiModelKeys (modelName config) then
    let! question := obj_get sess "question" in
    call_backend Custom port question sess
                 [VStr (apiKey config); VStr (modelName config)]
  else ret tt.

(** Lines 93-99: the [catch].  When [postMessage] throws, line 97 is not
    reached and the exception leaves the listener. *)
Definition on_error (port : nat) (err : Error) : M unit :=
  if negb (includes (message err) "aborted") then
    post port (error_envelope (message err)) ;;
    cache_delete KEY_ACCESS_TOKEN
  else ret tt.

(** Lines 54-100: the listener of [port.onMessage]. *)
Definition onMessage (port : nat) (msg : Msg) : M unit :=
  match session msg with
  | None => ret tt
  | Some sess =>
      let! config := await_getUserConfig in
      try_catch (dispatch port sess config) (on_error port)
  end.

(** The family a model key is dispatched to by the chain of [includes]
    tests of lines 61-92, [None] when no test succeeds (spec 4.2,
    [classify]; [None] is its [Unknown]). *)
Definition classify (k : string) : option Family :=
  if array_includes chatgptWebModelKeys k then Some WebSession
  else if array_includes gptApiModelKeys k then Some Completion
  else if array_includes chatgptApiModelKeys k then Some ChatCompletion
  else if array_includes customApiModelKeys k then Some Custom
  else None.

(** The key list of a family. *)
Definition family_keys (f : Family) : list string :=
  match f with
  | WebSession => chatgptWebModelKeys
  | Completion => gptApiModelKeys
  | ChatCompletion => chatgptApiModelKeys
  | Custom => customApiModelKeys
  end.

(** One request cycle up to the point where it returns or throws: the
    configuration read of line 58 and the [try] body. *)
Definition attempt (port sess : nat) : M unit :=
  let! config := await_getUserConfig in
  dispatch port sess config.

End Dispatcher.

(** The events a run added to the trace. *)
Definition turn_events (st st' : State) : list Event :=
  drop (length (trace st)) (trace st').

(** States the script can be in: it starts with an empty cache, and then
    listeners run, in any world, and time passes. *)
Inductive reachable : State -> Prop :=
| reach_init t : reachable (init_state t)
| reach_wait st t : reachable st -> reachable (set_now t st)
| reach_heap st h : reachable st -> reachable (set_heap h st)
| reach_getAccessToken w st :
    reachable st -> reachable (snd (getAccessToken w st))
| reach_onMessage w k1 k2 k3 k4 port msg st :
    reachable st -> reachable (snd (onMessage w k1 k2 k3 k4 port msg st)).

(** Only truthy values are ever stored in the cache. *)
Definition cache_truthy (st : State) : Prop :=
  forall k e, cache st !! k = Some e -> truthy (value e) = true.

(** ** Reading a cycle *)

(** The events [getAccessToken] can leave. *)
Definition credential_event (ev : Event) : Prop :=
  match ev with
  | EvGetUserConfig | EvFetch _ | EvCacheGet _ | EvCacheSet _ _ => True
  | _ => False
  end.

(** What lines 63-66 make of a session object, given the two identifiers
    drawn from [uuidv4]. *)
Definition fill_identifiers (id1 id2 : string) (s0 : gmap string jsval)
  : gmap string jsval :=
  let s1 := <["messageId" := VStr id1]> s0 in
  if loose_eq_null (prop s1 "parentMessageId")
  then <["parentMessageId" := VStr id2]> s1
  else s1.

(** What the [catch] adds to the trace when its envelope is delivered. *)
Definition error_events (port : nat) (r : result unit) : list Event :=
  match r with
  | Return _ => []
  | Throw e =>
      if negb (includes (message e) "aborted")
      then [EvPost port (error_envelope (message e)); EvCacheDelete KEY_ACCESS_TOKEN]
      else []
  end.

(** What the [catch] adds to the trace: nothing when it has nothing to
    report or cannot post, the events above otherwise. *)
Definition catch_tail (port : nat) (r : result unit) (tail : list Event) : Prop :=
  tail = [] \/ tail = error_events port r.

(** The backend calls recorded in a list of events. *)
Definition backend_call (ev : Event)
  : option (Family * jsval * gmap string jsval * list jsval) :=
  match ev with
  | EvBackend f _ q s a => Some (f, q, s, a)
  | _ => None
  end.

Definition backend_calls (evs : list Event)
  : list (Family * jsval * gmap string jsval * list jsval) :=
  omap backend_call evs.

(** The envelopes posted on a port in a list of events. *)
Definition posted_on (port : nat) (evs : list Event) : list (gmap string jsval) :=
  omap (fun ev => match ev with
                  | EvPost p e => if decide (p = port) then Some e else None
                  | _ => None
                  end) evs.

(** A computation keeps a property of the state, however it ends. *)
Definition keeps (P : State -> Prop) {A} (c : M A) : Prop :=
  forall st, P st -> P (snd (c st)).

(** Modelled from the spec: the four key lists are exported by
    config/index.mjs, which is not under src/; the spec has the families
    disjoint (3, Model Selection: "exactly one of four disjoint backend
    families"). *)
Definition families_disjoint (k1 k2 k3 k4 : list string) : Prop :=
  forall k f f',
    In k (family_keys k1 k2 k3 k4 f) -> In k (family_keys k1 k2 k3 k4 f') -> f = f'.


(** The claim C4 as it is stated, on the events of a cycle: an identifier
    was drawn and is the [messageId] of the session a backend was given. *)
Definition messageId_assigned (evs : list Event) : Prop :=
  exists id f q s a,
    In (EvUuid id) evs /\ In (f, q, s, a) (backend_calls evs) /\
    s !! "messageId" = Some (VStr id).

(** The claim C5 as it is stated: the session a backend is given has every
    field of the session [s0] the caller sent. *)
Definition caller_fields_kept (s0 : gmap string jsval) (evs : list Event) : Prop :=
  forall f q s a, In (f, q, s, a) (backend_calls evs) ->
                  forall k v, s0 !! k = Some v -> s !! k = Some v.

(** * Sample runs *)

Module Sample.

Fixpoint stars (n : nat) : string :=
  match n with
  | O => ""
  | S n' => String "*"%char (stars n')
  end.

(** A generator of identifiers that never repeats. *)
Definition uuid_of (n : nat) : string := String "#"%char (stars n).

Definition web_keys : list string := ["chatgptFree"; "chatgptPlus4"].
Definition gpt_keys : list string := ["gptApiDavinci"].
Definition chat_keys : list string := ["chatgptApi35"; "chatgptApi4_8k"].
Definition custom_keys : list string := ["customModel"].

Definition Backend : Type :=
  Family -> State -> nat -> jsval -> gmap string jsval -> list jsval -> BackendResult.

(** A backend that posts one answer and returns. *)
Definition answering : Backend :=
  fun _ _ _ _ s _ => mkBackendResult [{[ "answer" := VStr "42" ]}] s (Return tt).

(** A backend that throws. *)
Definition failing (msg : string) : Backend :=
  fun _ _ _ _ s _ => mkBackendResult [] s (Throw (mkError msg)).

(** A browser other than Safari, every await taking 5 ms, every port
    connected. *)
Definition world (model : string) (resp : FetchResult) (b : Backend) : World :=
  mkWorld false (fun _ => mkConfig model "sk-test" VUndefined)
          (fun _ _ => resp) (fun _ => 5%Z) uuid_of b (fun _ _ _ => None).



Definition session_ok : FetchResult :=
  FetchResponse 200 (BodyValid (DataObject {[ "accessToken" := VStr "tok" ]})).

Definition session_blocked : FetchResult :=
  FetchResponse 403 (BodyInvalid (mkError "Unexpected token <")).

Definition session_garbled : FetchResult :=
  FetchResponse 200 (BodyInvalid (mkError "Unexpected token <")).

(** The script just loaded, with one session object at reference 1. *)
Definition with_session (s : gmap string jsval) : State :=
  set_heap {[ 1 := s ]} (init_state 0).

Definition first_turn : gmap string jsval := {[ "question" := VStr "hi" ]}.

Definition numbered_turn : gmap string jsval :=
  <[ "messageId" := VStr "m-1" ]> first_turn.

(** The state after a first successful [getAccessToken]. *)
Definition st_cached : State :=
  snd (getAccessToken (world "chatgptFree" session_ok answering) (init_state 0)).

End Sample.

(** * The other listeners *)

(** A one-shot message of [runtime.onMessage]: [{ type, data }]. *)
Record RuntimeMessage : Type := mkRuntimeMessage { rm_type : string; rm_data : jsval }.

Section Listeners.

Variable w : World.
Variables chatgptWebModelKeys gptApiModelKeys
          chatgptApiModelKeys customApiModelKeys : list string.

(** [sendMessageFeedback] of apis/chatgpt-web, which is not under src/: how
    the call ends, given the token, the payload and the state it runs in. *)
Variable sendMessageFeedback : jsval -> jsval -> State -> result unit.

(** Lines 103-108: the listener of FEEDBACK messages.  It has no [try];
    [fed] lists the calls of [sendMessageFeedback] made so far, each with
    its token and its payload. *)
Definition onFeedback (message : RuntimeMessage) (st : State)
           (fed : list (jsval * jsval))
  : result unit * State * list (jsval * jsval) :=
  if String.eqb (rm_type message) "FEEDBACK" then
    match getAccessToken w st with
    | (Return token, st1) =>
        (sendMessageFeedback token (rm_data message) st1, tick w st1,
         fed ++ [(token, rm_data message)])
    | (Throw e, st1) => (Throw e, st1, fed)
    end
  else (Return tt, st, fed).

(** Lines 52-101: the listener of [runtime.onConnect] gives the port its
    message listener; the messages of the port are handled one after the
    other, each run from its first statement to its last. *)
Definition onConnect (port : nat) (msgs : list Msg) (st : State) : State :=
  fold_left
    (fun acc msg =>
       snd (onMessage w chatgptWebModelKeys gptApiModelKeys
                      chatgptApiModelKeys customApiModelKeys port msg acc))
    msgs st.

End Listeners.

(** The place of a family in the chain of tests of lines 61-92. *)
Definition family_rank (f : Family) : nat :=
  match f with
  | WebSession => 0
  | Completion => 1
  | ChatCompletion => 2
  | Custom => 3
  end.

(** The identifiers drawn in a list of events. *)
Definition uuid_draws (evs : list Event) : list string :=
  omap (fun ev => match ev with EvUuid id => Some id | _ => None end) evs.

(** The network requests in a list of events. *)
Definition fetches (evs : list Event) : list string :=
  omap (fun ev => match ev with EvFetch url => Some url | _ => None end) evs.

(** The trace only grows: what a run leaves is the trace it found and the
    events it added. *)
Definition extends (st st' : State) : Prop :=
  exists evs, trace st' = trace st ++ evs.

(** The messages of a port that carry a session. *)
Definition has_session (msg : Msg) : bool :=
  match session msg with
  | Some _ => true
  | None => false
  end.

(** More sample worlds. *)
Module Sample2.

(** Safari: the credential comes from the configuration. *)
Definition safari (token : jsval) : World :=
  mkWorld true (fun _ => mkConfig "chatgptFree" "sk-test" token)
          (fun _ _ => FetchReject (mkError "not used")) (fun _ => 5%Z)
          Sample.uuid_of Sample.answering (fun _ _ _ => None).

(** A browser other than Safari whose network is down. *)
Definition offline : World :=
  Sample.world "chatgptFree" (FetchReject (mkError "Failed to fetch"))
               Sample.answering.

(** A feedback endpoint that accepts everything. *)
Definition accepting : jsval -> jsval -> State -> result unit :=
  fun _ _ _ => Return tt.

Definition menuConfig : list (string * string) :=
  [("new_chat", "New Chat"); ("close_all_chats", "Close All Chats")].

Definition selectionTools : list string := ["translate"; "summary"; "explain"].

Definition selectionToolsDesc : list string := ["Translate"; "Summary"; "Explain"].

End Sample2.

(** * Tactics *)

(** Unfolding one run: the monad operations and the primitive effects. *)
Ltac run_unfold :=
  unfold bind, ret, throw, try_catch, cache_get, cache_set, cache_delete,
    await_getUserConfig, await_fetch, await_json_catch, member, uuid, post,
    obj_get, obj_set in *.

(** Case analysis along the tests of the script, outermost first. *)
Ltac run_cases :=
  repeat (simpl;
          match goal with
          | |- context [truthy ?v] => destruct (truthy v) eqn:?
          | |- context [isSafari ?w] => destruct (isSafari w) eqn:?
          | |- context [fetch ?w ?u ?s] => destruct (fetch w u s) eqn:?
          | |- context [(?a =? 403)%Z] => destruct (a =? 403)%Z eqn:?
          | |- context [match ?b with BodyInvalid _ => _ | BodyValid _ => _ end] =>
              destruct b eqn:?
          | |- context [match ?d with DataPrim _ => _ | DataObject _ => _ end] =>
              destruct d eqn:?
          | |- context [loose_eq_null ?v] => destruct (loose_eq_null v) eqn:?
          end).

(** * The context menu (lines 110-164) *)

Module Menu.

(** The argument of [contextMenus.create]. *)
Record MenuItem : Type := mkItem {
  id : string;
  parentId : option string;
  title : option string;
  contexts : list string;
  type : option string
}.

(** The arrow function of lines 144-154; it closes over [menuId]. *)
Inductive Listener : Type := ClickListener (menuId : string).

(** The first argument of a click listener. *)
Record ClickInfo : Type := mkInfo { menuItemId : string; selectionText : jsval }.

(** [{ type, data: { itemId, selectionText } }] *)
Record TabMessage : Type := mkTabMessage {
  msg_type : string;
  itemId : string;
  msg_selectionText : jsval
}.

(** The part of the browser the menu code acts on.  The extension API is
    imported: [removeAll] drops every item; [create] adds an item, and
    refuses one whose id is taken; [addListener] registers one more
    listener; a click calls every listener registered.  Of the refusals of
    [create] only that of a taken id is modelled: what the browser does
    with an item that has no title is not. *)
Record Browser : Type := mkBrowser {
  menus : list MenuItem;
  onClicked : list Listener;
  sent : list (nat * TabMessage)
}.

Definition fresh_browser : Browser := mkBrowser [] [] [].

Definition removeAll (b : Browser) : Browser :=
  mkBrowser [] (onClicked b) (sent b).

Definition create_item (it : MenuItem) (ms : list MenuItem) : list MenuItem :=
  if existsb (String.eqb (id it)) (map id ms) then ms else ms ++ [it].

Definition create (it : MenuItem) (b : Browser) : Browser :=
  mkBrowser (create_item it (menus b)) (onClicked b) (sent b).

Definition addListener (l : Listener) (b : Browser) : Browser :=
  mkBrowser (menus b) (onClicked b ++ [l]) (sent b).

Definition sendMessage (tab : nat) (m : TabMessage) (b : Browser) : Browser :=
  mkBrowser (menus b) (onClicked b) (sent b ++ [(tab, m)]).

(** Running one listener on a click. *)
Definition run_listener (l : Listener) (info : ClickInfo) (tab : nat) (b : Browser)
  : Browser :=
  match l with
  | ClickListener menuId =>
      sendMessage tab
        (mkTabMessage "CREATE_MENU"
                      (replace_first (menuItemId info) menuId)
                      (selectionText info)) b
  end.

(** The user clicks a menu item in a tab. *)
Definition click (info : ClickInfo) (tab : nat) (b : Browser) : Browser :=
  fold_left (fun acc l => run_listener l info tab acc) (onClicked b) b.

Section Rebuild.

(** [Object.entries(menuConfig)] with the label of each tool, and the two
    parallel arrays of [defaultConfig]; their modules are not under src/. *)
Variable menuConfig : list (string * string).
Variables selectionTools selectionToolsDesc : list string.

Definition menuId : string := "ChatGPTBox-Menu".

Definition root_item : MenuItem :=
  mkItem menuId None (Some "ChatGPTBox") ["all"] None.

Definition tool_item (kv : string * string) : MenuItem :=
  mkItem (String.append menuId (fst kv)) (Some menuId) (Some (snd kv)) ["all"] None.

Definition separator_item : MenuItem :=
  mkItem (String.append menuId "separator1") (Some menuId) None ["selection"]
         (Some "separator").

(** The item of one index of [selectionTools]; the description of an index
    beyond [selectionToolsDesc] is undefined. *)
Definition selection_item (index : nat) (key : string) : MenuItem :=
  mkItem (String.append menuId key) (Some menuId) (selectionToolsDesc !! index)
         ["selection"] None.

(** The items in the order the callback of [removeAll] creates them. *)
Definition menu_items : list MenuItem :=
  root_item :: map tool_item menuConfig
  ++ separator_item :: imap selection_item selectionTools.

(** [refreshMenu()], with the callback of the promise run at once. *)
Definition refreshMenu (b : Browser) : Browser :=
  let b := removeAll b in
  let b := fold_left (fun acc it => create it acc) menu_items b in
  addListener (ClickListener menuId) b.

(** The listener of line 158 on a REFRESH_MENU message. *)
Definition onRefreshMessage (msg_type : string) (b : Browser) : Browser :=
  if String.eqb msg_type "REFRESH_MENU" then refreshMenu b else b.

Lemma create_all_frame items b :
  onClicked (fold_left (fun acc it => create it acc) items b) = onClicked b /\
  sent (fold_left (fun acc it => create it acc) items b) = sent b /\
  menus (fold_left (fun acc it => create it acc) items b)
  = fold_left (fun acc it => create_item it acc) items (menus b).
Proof.
  revert b. induction items as [|it items IH]; intros b; simpl; [done|].
  destruct (IH (create it b)) as (-> & -> & ->). done.
Qed.

(** The menu after a rebuild does not depend on the menu before it. *)
Lemma refreshMenu_menus b :
  menus (refreshMenu b)
  = fold_left (fun acc it => create_item it acc) menu_items [].
Proof.
  unfold refreshMenu, addListener. cbv zeta. cbn [menus].
  destruct (create_all_frame menu_items (removeAll b)) as (_ & _ & ->). done.
Qed.

Lemma refreshMenu_onClicked b :
  onClicked (refreshMenu b) = onClicked b ++ [ClickListener menuId].
Proof.
  unfold refreshMenu, addListener. cbv zeta. cbn [onClicked].
  destruct (create_all_frame menu_items (removeAll b)) as (-> & _ & _). done.
Qed.

Lemma refreshMenu_sent b : sent (refreshMenu b) = sent b.
Proof.
  unfold refreshMenu, addListener. cbv zeta. cbn [sent].
  destruct (create_all_frame menu_items (removeAll b)) as (_ & -> & _). done.
Qed.

Lemma create_item_NoDup it ms :
  NoDup (map id ms) -> NoDup (map id (create_item it ms)).
Proof.
  intros Hnd. unfold create_item.
  destruct (existsb _ _) eqn:Hex; [done|].
  rewrite map_app. simpl. apply NoDup_app. split; [done|]. split.
  - intros x Hx ->%list_elem_of_singleton.
    apply list_elem_of_In in Hx.
    assert (existsb (String.eqb (id it)) (map id ms) = true); [|congruence].
    apply existsb_exists. exists (id it). split; [done | apply String.eqb_refl].
  - apply NoDup_singleton.
Qed.

(** The rebuilt menu has no two items of one id, and twice is as once. *)
Lemma refreshMenu_menu_idempotent b :
  menus (refreshMenu (refreshMenu b)) = menus (refreshMenu b) /\
  NoDup (map id (menus (refreshMenu b))).
Proof.
  rewrite !refreshMenu_menus. split; [done|].
  assert (H : forall items ms, NoDup (map id ms) ->
                NoDup (map id (fold_left (fun acc it => create_item it acc) items ms))).
  { induction items as [|it items IH]; intros ms Hms; simpl; [done|].
    apply IH. by apply create_item_NoDup. }
  apply H. simpl. apply NoDup_nil_2.
Qed.

Lemma click_sent info tab b :
  sent (click info tab b)
  = sent b ++ map (fun l => match l with
                            | ClickListener m =>
                                (tab, mkTabMessage "CREATE_MENU"
                                        (replace_first (menuItemId info) m)
                                        (selectionText info))
                            end) (onClicked b).
Proof.
  unfold click. generalize (onClicked b) as ls. intros ls. revert b.
  induction ls as [|l ls IH]; intros b; simpl.
  - by rewrite app_nil_r.
  - rewrite IH. destruct l as [m]. simpl. by rewrite <- app_assoc.
Qed.

(** C8.  The script rebuilds the menu when it is loaded and again on a
    REFRESH_MENU message.  After the two rebuilds the menu is the one a
    single rebuild makes, with no id twice, but two click listeners are
    registered: one click on a menu item sends the tab two CREATE_MENU
    messages, where after a single rebuild it sends one. *)
Theorem refreshMenu_twice_click info tab :
  let loaded := refreshMenu fresh_browser in
  let refreshed := onRefreshMessage "REFRESH_MENU" loaded in
  let m := (tab, mkTabMessage "CREATE_MENU"
                   (replace_first (menuItemId info) menuId) (selectionText info)) in
  menus refreshed = menus loaded /\
  NoDup (map id (menus refreshed)) /\
  sent (click info tab loaded) = [m] /\
  sent (click info tab refreshed) = [m; m].
Proof.
  intros loaded refreshed m.
  change refreshed with (refreshMenu loaded). unfold loaded.
  split; [apply refreshMenu_menu_idempotent|].
  split; [apply refreshMenu_menu_idempotent|].
  rewrite !click_sent, !refreshMenu_onClicked, !refreshMenu_sent. done.
Qed.

End Rebuild.

End Menu.

(** * The dispatcher: facts *)

(** ** Basic facts *)

Lemma post_all_trace port envs st :
  trace (post_all port envs st) = trace st ++ map (EvPost port) envs.
Proof.
  revert st. induction envs as [|e envs IH]; intros st; simpl.
  - by rewrite app_nil_r.
  - unfold post_all in *. simpl. rewrite IH. simpl. by rewrite <- app_assoc.
Qed.

Lemma post_all_frame port envs st :
  now (post_all port envs st) = now st /\
  cache (post_all port envs st) = cache st /\
  heap (post_all port envs st) = heap st /\
  uuids (post_all port envs st) = uuids st.
Proof.
  revert st. induction envs as [|e envs IH]; intros st; simpl; [done|].
  unfold post_all in *. simpl. destruct (IH (log (EvPost port e) st)) as (?&?&?&?).
  simpl in *. repeat split; congruence.
Qed.

Lemma turn_events_app st st' evs :
  trace st' = trace st ++ evs -> turn_events st st' = evs.
Proof. unfold turn_events. intros ->. by rewrite drop_app_length. Qed.

Lemma expiry_set_truthy st t k v :
  cache_truthy st -> truthy v = true ->
  forall k' e, expiry_set t (cache st) k v !! k' = Some e ->
               truthy (value e) = true.
Proof.
  intros Hinv Hv k' e. unfold expiry_set. rewrite lookup_insert.
  case_decide; [intros [= <-]; done | apply Hinv].
Qed.

(** A cache hit: two reads of the cache and nothing else. *)
Lemma getAccessToken_hit w st :
  truthy (expiry_get cache_maxAge (now st) (cache st) KEY_ACCESS_TOKEN) = true ->
  getAccessToken w st =
  (Return (expiry_get cache_maxAge (now st) (cache st) KEY_ACCESS_TOKEN),
   log (EvCacheGet KEY_ACCESS_TOKEN) (log (EvCacheGet KEY_ACCESS_TOKEN) st)).
Proof.
  intros Hhit. unfold getAccessToken. run_unfold. simpl. by rewrite Hhit.
Qed.

(** What [getAccessToken] never touches, and what it leaves in the trace. *)
Lemma getAccessToken_frame w st :
  heap (snd (getAccessToken w st)) = heap st /\
  uuids (snd (getAccessToken w st)) = uuids st /\
  exists evs, trace (snd (getAccessToken w st)) = trace st ++ evs /\
              Forall credential_event evs.
Proof.
  unfold getAccessToken. run_unfold. simpl.
  run_cases; simpl; repeat split; try done;
    eexists; (split; [rewrite <- ?app_assoc; reflexivity |]);
    repeat constructor.
Qed.

(** A failing [getAccessToken] leaves the cache as it found it. *)
Lemma getAccessToken_throw_cache w st e st' :
  getAccessToken w st = (Throw e, st') -> cache st' = cache st.
Proof.
  unfold getAccessToken. run_unfold. simpl.
  run_cases; simpl; intros [= <- <-]; done.
Qed.

Lemma getAccessToken_truthy w st :
  cache_truthy st -> cache_truthy (snd (getAccessToken w st)).
Proof.
  intros Hinv. unfold getAccessToken. run_unfold. simpl.
  run_cases; simpl; try done; unfold cache_truthy; simpl;
    intros k' e'; apply expiry_set_truthy; try done;
    by rewrite ?negb_false_iff in *.
Qed.

(** ** The handler, branch by branch *)

Lemma prop_insert_ne (s : gmap string jsval) k k' v :
  k ≠ k' -> prop (<[k := v]> s) k' = prop s k'.
Proof. intros Hne. unfold prop. by rewrite lookup_insert_ne. Qed.

Lemma call_backend_run w f port q sess args st :
  let r := backend w f st port q (object_at sess st) args in
  exists st',
    call_backend w f port q sess args st = (b_outcome r, st') /\
    trace st' = trace st ++ EvBackend f port q (object_at sess st) args
                         :: map (EvPost port) (b_posts r) /\
    cache st' = cache st /\ uuids st' = uuids st.
Proof.
  intros r. unfold call_backend. fold r. eexists. split; [reflexivity|].
  simpl. rewrite post_all_trace. simpl.
  destruct (post_all_frame port (b_posts r)
              (log (EvBackend f port q (object_at sess st) args) st)) as (?&?&?&?).
  rewrite <- app_assoc. simpl in *. repeat split; congruence.
Qed.

Lemma on_error_run w port e st :
  exists r st' tail,
    on_error w port e st = (r, st') /\
    trace st' = trace st ++ tail /\ catch_tail port (Throw e) tail /\
    heap st' = heap st /\ uuids st' = uuids st /\ now st' = now st /\
    (cache st' = cache st \/ cache st' = delete KEY_ACCESS_TOKEN (cache st)).
Proof.
  unfold on_error, catch_tail, error_events. run_unfold.
  destruct (negb (includes (message e) "aborted")); simpl.
  - destruct (postMessage w port (error_envelope (message e)) st) as [e'|]; simpl.
    + exists (Throw e'), st, []. rewrite app_nil_r. repeat split; auto.
    + eexists _, _, _. split; [reflexivity|]. simpl. rewrite <- app_assoc. simpl.
      repeat split; auto.
  - exists (Return tt), st, []. rewrite app_nil_r. repeat split; auto.
Qed.

(** The [catch] with its envelope delivered. *)
Lemma on_error_posted w port e st :
  includes (message e) "aborted" = false ->
  postMessage w port (error_envelope (message e)) st = None ->
  on_error w port e st =
  (Return tt,
   log (EvCacheDelete KEY_ACCESS_TOKEN)
     (set_cache (expiry_delete (cache st) KEY_ACCESS_TOKEN)
        (log (EvPost port (error_envelope (message e))) st))).
Proof.
  intros Hmsg Hpost. unfold on_error. run_unfold. rewrite Hmsg. simpl.
  by rewrite Hpost.
Qed.

(** The listener is the attempt followed, when it threw, by the [catch]. *)
Lemma onMessage_attempt w k1 k2 k3 k4 port sess st :
  onMessage w k1 k2 k3 k4 port (mkMsg (Some sess)) st =
  match attempt w k1 k2 k3 k4 port sess st with
  | (Return a, st1) => (Return a, st1)
  | (Throw e, st1) => on_error w port e st1
  end.
Proof.
  unfold onMessage, attempt. simpl. unfold bind, try_catch, await_getUserConfig.
  destruct (dispatch _ _ _ _ _ _ _ _ _) as [[a|e] st1]; done.
Qed.

Section Branches.

Variable w : World.
Variables k1 k2 k3 k4 : list string.
Variables (port sess : nat) (config : UserConfig) (st : State).

Lemma dispatch_unknown :
  classify k1 k2 k3 k4 (modelName config) = None ->
  dispatch w k1 k2 k3 k4 port sess config st = (Return tt, st).
Proof.
  unfold classify, dispatch. intros H.
  repeat destruct (array_includes _ _); try discriminate. done.
Qed.

Lemma dispatch_token f :
  classify k1 k2 k3 k4 (modelName config) = Some f -> f ≠ WebSession ->
  dispatch w k1 k2 k3 k4 port sess config st =
  call_backend w f port (prop (object_at sess st) "question") sess
               [VStr (apiKey config); VStr (modelName config)] st.
Proof.
  unfold classify, dispatch. intros H Hf.
  repeat destruct (array_includes _ _); try discriminate;
    injection H as <-; done.
Qed.

Lemma dispatch_web_throw e st2 :
  classify k1 k2 k3 k4 (modelName config) = Some WebSession ->
  getAccessToken w st = (Throw e, st2) ->
  dispatch w k1 k2 k3 k4 port sess config st = (Throw e, st2).
Proof.
  unfold classify, dispatch. intros H Hget.
  destruct (array_includes k1 _); [|repeat destruct (array_includes _ _); discriminate].
  unfold bind at 1. by rewrite Hget.
Qed.

Lemma dispatch_web_return token st2 :
  classify k1 k2 k3 k4 (modelName config) = Some WebSession ->
  getAccessToken w st = (Return token, st2) ->
  let id1 := uuidv4 w (uuids st) in
  let id2 := uuidv4 w (S (uuids st)) in
  let s0 := object_at sess st in
  let s := fill_identifiers id1 id2 s0 in
  exists r st',
    dispatch w k1 k2 k3 k4 port sess config st = (b_outcome r, st') /\
    trace st' = trace st2
                ++ EvUuid id1
                :: (if loose_eq_null (prop s0 "parentMessageId")
                    then [EvUuid id2] else [])
                ++ EvBackend WebSession port (prop s "question") s [token]
                :: map (EvPost port) (b_posts r) /\
    cache st' = cache st2.
Proof.
  unfold classify, dispatch. intros H Hget.
  destruct (array_includes k1 _); [|repeat destruct (array_includes _ _); discriminate].
  pose proof (getAccessToken_frame w st) as (Hheap & Huuid & _).
  rewrite Hget in Hheap, Huuid. simpl in Hheap, Huuid.
  unfold bind at 1. rewrite Hget. run_unfold.
  unfold call_backend, fill_identifiers, object_at. simpl.
  rewrite !Hheap, !Huuid, !lookup_insert_eq. simpl.
  rewrite !prop_insert_ne by done.
  destruct (loose_eq_null (prop (default ∅ (heap st !! sess)) "parentMessageId"));
    simpl; rewrite ?lookup_insert_eq; simpl;
    (eexists _, _; split; [reflexivity|]); simpl;
    rewrite post_all_trace; simpl; rewrite <- !app_assoc; simpl;
    (split; [reflexivity|]);
    match goal with
    | |- cache (post_all ?p ?es ?s0) = _ =>
        destruct (post_all_frame p es s0) as (_ & -> & _)
    end; done.
Qed.

End Branches.

(** ** Reading a trace *)

Lemma backend_calls_app evs1 evs2 :
  backend_calls (evs1 ++ evs2) = backend_calls evs1 ++ backend_calls evs2.
Proof. apply omap_app. Qed.

Lemma backend_calls_cons ev evs :
  backend_calls (ev :: evs) =
  match backend_call ev with
  | Some c => c :: backend_calls evs
  | None => backend_calls evs
  end.
Proof. reflexivity. Qed.

Lemma backend_calls_credential evs :
  Forall credential_event evs -> backend_calls evs = [].
Proof.
  induction 1 as [|ev evs Hev _ IH]; [done|].
  destruct ev; try destruct Hev; exact IH.
Qed.

Lemma backend_calls_posts port envs : backend_calls (map (EvPost port) envs) = [].
Proof. induction envs as [|e envs IH]; [done|]. exact IH. Qed.

Lemma backend_calls_error port r : backend_calls (error_events port r) = [].
Proof.
  destruct r as [a|e]; [done|]. simpl.
  by destruct (negb (includes (message e) "aborted")).
Qed.

Lemma backend_calls_tail port r tail :
  catch_tail port r tail -> backend_calls tail = [].
Proof. intros [->| ->]; [done | apply backend_calls_error]. Qed.

Lemma array_includes_In arr x : array_includes arr x = true <-> In x arr.
Proof.
  unfold array_includes. rewrite existsb_exists. split.
  - intros (y & Hy & Heq). apply String.eqb_eq in Heq. by subst.
  - intros Hx. exists x. split; [done|]. apply String.eqb_refl.
Qed.

Lemma classify_In k1 k2 k3 k4 k f :
  classify k1 k2 k3 k4 k = Some f -> In k (family_keys k1 k2 k3 k4 f).
Proof.
  unfold classify.
  destruct (array_includes k1 k) eqn:H1; [intros [= <-]; by apply array_includes_In|].
  destruct (array_includes k2 k) eqn:H2; [intros [= <-]; by apply array_includes_In|].
  destruct (array_includes k3 k) eqn:H3; [intros [= <-]; by apply array_includes_In|].
  destruct (array_includes k4 k) eqn:H4; [intros [= <-]; by apply array_includes_In|].
  discriminate.
Qed.

Lemma classify_None k1 k2 k3 k4 k :
  classify k1 k2 k3 k4 k = None <-> forall f, ~ In k (family_keys k1 k2 k3 k4 f).
Proof.
  unfold classify. split.
  - intros H f Hin. apply array_includes_In in Hin.
    destruct f; simpl in Hin; rewrite Hin in H;
      repeat destruct (array_includes _ k); discriminate.
  - intros H.
    destruct (array_includes k1 k) eqn:H1;
      [apply array_includes_In in H1; destruct (H WebSession H1)|].
    destruct (array_includes k2 k) eqn:H2;
      [apply array_includes_In in H2; destruct (H Completion H2)|].
    destruct (array_includes k3 k) eqn:H3;
      [apply array_includes_In in H3; destruct (H ChatCompletion H3)|].
    destruct (array_includes k4 k) eqn:H4;
      [apply array_includes_In in H4; destruct (H Custom H4)|].
    done.
Qed.

(** ** One request cycle, summarised *)

Section Cycle.

Variable w : World.
Variables k1 k2 k3 k4 : list string.
Variables (port sess : nat) (st : State).

Let config := getUserConfig w st.
Let st0 := tick w (log EvGetUserConfig st).
Let s0 := object_at sess st.

(** The events of a cycle of an unknown model key. *)
Lemma onMessage_unknown :
  classify k1 k2 k3 k4 (modelName config) = None ->
  onMessage w k1 k2 k3 k4 port (mkMsg (Some sess)) st = (Return tt, st0).
Proof.
  intros H. rewrite onMessage_attempt. unfold attempt, bind, await_getUserConfig.
  fold config st0. by rewrite dispatch_unknown.
Qed.

(** The events of a cycle of a token-based family. *)
Lemma onMessage_token f :
  classify k1 k2 k3 k4 (modelName config) = Some f -> f ≠ WebSession ->
  exists r tail st',
    snd (onMessage w k1 k2 k3 k4 port (mkMsg (Some sess)) st) = st' /\
    catch_tail port (b_outcome r) tail /\
    turn_events st st' =
      EvGetUserConfig
      :: EvBackend f port (prop s0 "question") s0
                   [VStr (apiKey config); VStr (modelName config)]
      :: map (EvPost port) (b_posts r) ++ tail.
Proof.
  intros H Hf. rewrite onMessage_attempt. unfold attempt, bind, await_getUserConfig.
  fold config st0. rewrite (dispatch_token _ _ _ _ _ _ _ _ _ f) by done.
  match goal with
  | |- context [call_backend ?w ?f ?p ?q ?s ?a ?sx] =>
      destruct (call_backend_run w f p q s a sx) as (st1 & -> & Htr & _)
  end.
  change (object_at sess st0) with s0 in *.
  set (r := backend w f st0 port (prop s0 "question") s0 _) in *.
  exists r. destruct (b_outcome r) as [[]|e] eqn:Hout.
  - exists [], st1. split; [done|]. split; [by left|]. apply turn_events_app.
    rewrite Htr. simpl. rewrite <- app_assoc. simpl. by rewrite app_nil_r.
  - destruct (on_error_run w port e st1) as (r' & st' & tail & -> & Htr' & Htail & _).
    exists tail, st'. split; [done|]. split; [done|]. apply turn_events_app.
    rewrite Htr', Htr. simpl. rewrite <- !app_assoc. done.
Qed.

(** The events of a web-session cycle whose credential could not be had. *)
Lemma onMessage_web_throw e st2 :
  classify k1 k2 k3 k4 (modelName config) = Some WebSession ->
  getAccessToken w st0 = (Throw e, st2) ->
  exists evs tail st',
    snd (onMessage w k1 k2 k3 k4 port (mkMsg (Some sess)) st) = st' /\
    Forall credential_event evs /\ catch_tail port (Throw e) tail /\
    turn_events st st' = EvGetUserConfig :: evs ++ tail /\
    object_at sess st' = s0 /\ uuids st' = uuids st.
Proof.
  intros H Hget. rewrite onMessage_attempt. unfold attempt, bind, await_getUserConfig.
  fold config st0. rewrite (dispatch_web_throw w k1 k2 k3 k4 port sess config st0 e st2 H Hget).
  destruct (getAccessToken_frame w st0) as (Hheap & Huuid & evs & Htr & Hevs).
  rewrite Hget in Hheap, Huuid, Htr. simpl in Hheap, Huuid, Htr.
  destruct (on_error_run w port e st2)
    as (r' & st' & tail & -> & Htr' & Htail & Hheap' & Huuid' & _).
  exists evs, tail, st'. repeat split; try done.
  - apply turn_events_app. rewrite Htr', Htr. simpl. by rewrite <- !app_assoc.
  - unfold s0, object_at. by rewrite Hheap', Hheap.
  - by rewrite Huuid', Huuid.
Qed.

(** The events of a web-session cycle that reached its backend. *)
Lemma onMessage_web_return token st2 :
  classify k1 k2 k3 k4 (modelName config) = Some WebSession ->
  getAccessToken w st0 = (Return token, st2) ->
  let id1 := uuidv4 w (uuids st) in
  let id2 := uuidv4 w (S (uuids st)) in
  let s := fill_identifiers id1 id2 s0 in
  exists evs r tail st',
    snd (onMessage w k1 k2 k3 k4 port (mkMsg (Some sess)) st) = st' /\
    Forall credential_event evs /\ catch_tail port (b_outcome r) tail /\
    turn_events st st' =
      EvGetUserConfig :: evs
      ++ EvUuid id1
      :: (if loose_eq_null (prop s0 "parentMessageId") then [EvUuid id2] else [])
      ++ EvBackend WebSession port (prop s "question") s [token]
      :: map (EvPost port) (b_posts r) ++ tail.
Proof.
  intros H Hget id1 id2 s. rewrite onMessage_attempt.
  unfold attempt, bind, await_getUserConfig. fold config st0.
  destruct (dispatch_web_return w k1 k2 k3 k4 port sess config st0 token st2 H Hget)
    as (r & st1 & -> & Htr & _).
  change (uuids st0) with (uuids st) in Htr.
  change (object_at sess st0) with s0 in Htr. fold id1 id2 s in Htr.
  destruct (getAccessToken_frame w st0) as (_ & _ & evs & Htr0 & Hevs).
  rewrite Hget in Htr0. simpl in Htr0.
  exists evs, r. destruct (b_outcome r) as [[]|e] eqn:Hout.
  - exists [], st1. split; [done|]. split; [done|]. split; [by left|].
    apply turn_events_app.
    rewrite Htr, Htr0. simpl. rewrite <- !app_assoc. simpl.
    by rewrite app_nil_r.
  - destruct (on_error_run w port e st1) as (r' & st' & tail & -> & Htr' & Htail & _).
    exists tail, st'. split; [done|]. split; [done|]. split; [done|].
    apply turn_events_app.
    rewrite Htr', Htr, Htr0. simpl. rewrite <- !app_assoc. simpl.
    do 3 f_equal. rewrite <- !app_assoc. done.
Qed.

End Cycle.

(** ** The cache invariant *)

Lemma keeps_ret P {A} (a : A) : keeps P (ret a).
Proof. by intros st. Qed.

Lemma keeps_throw P {A} e : keeps P (@throw A e).
Proof. by intros st. Qed.

Lemma keeps_bind P {A B} (c : M A) (k : A -> M B) :
  keeps P c -> (forall a, keeps P (k a)) -> keeps P (bind c k).
Proof.
  intros Hc Hk st HP. unfold bind. specialize (Hc st HP).
  destruct (c st) as [[a|e] st1]; simpl in *; [by apply Hk | done].
Qed.

Lemma keeps_try_catch P {A} (c : M A) (h : Error -> M A) :
  keeps P c -> (forall e, keeps P (h e)) -> keeps P (try_catch c h).
Proof.
  intros Hc Hh st HP. unfold try_catch. specialize (Hc st HP).
  destruct (c st) as [[a|e] st1]; simpl in *; [done | by apply Hh].
Qed.

(** A property of the cache alone is kept by whatever leaves the cache. *)
Lemma keeps_cache_only (P : State -> Prop) {A} (c : M A) :
  (forall st st', cache st' = cache st -> P st -> P st') ->
  (forall st, cache (snd (c st)) = cache st) -> keeps P c.
Proof. intros HP Hc st Hst. by apply (HP st). Qed.

Lemma cache_truthy_cache st st' :
  cache st' = cache st -> cache_truthy st -> cache_truthy st'.
Proof. unfold cache_truthy. by intros ->. Qed.

Lemma call_backend_cache w f port q sess args st :
  cache (snd (call_backend w f port q sess args st)) = cache st.
Proof.
  destruct (call_backend_run w f port q sess args st) as (st' & -> & _ & Hc & _).
  done.
Qed.

Lemma dispatch_truthy w k1 k2 k3 k4 port sess config :
  keeps cache_truthy (dispatch w k1 k2 k3 k4 port sess config).
Proof.
  assert (Hcall : forall f q a, keeps cache_truthy (call_backend w f port q sess a)).
  { intros f q a. apply keeps_cache_only; [apply cache_truthy_cache|].
    intros st. apply call_backend_cache. }
  assert (Hget : forall k, keeps cache_truthy (obj_get sess k)) by (by intros k st).
  assert (Hset : forall k v, keeps cache_truthy (obj_set sess k v)) by (by intros k v st).
  assert (Huuid : keeps cache_truthy (uuid w)) by (by intros st).
  unfold dispatch.
  repeat match goal with
         | |- keeps _ (if ?b then _ else _) => destruct b
         | |- keeps _ (bind _ _) => apply keeps_bind; [|intros ?]
         | |- keeps _ (ret _) => apply keeps_ret
         | |- keeps _ (getAccessToken _) => intros st; apply getAccessToken_truthy
         | _ => done
         end.
Qed.

Lemma on_error_truthy w port e : keeps cache_truthy (on_error w port e).
Proof.
  intros st Hinv.
  destruct (on_error_run w port e st) as (r & st' & tail & -> & _ & _ & _ & _ & _ & Hc).
  simpl. unfold cache_truthy. destruct Hc as [-> | ->]; [apply Hinv|].
  intros k en. rewrite lookup_delete. case_decide; [done | apply Hinv].
Qed.

Lemma onMessage_truthy w k1 k2 k3 k4 port msg :
  keeps cache_truthy (onMessage w k1 k2 k3 k4 port msg).
Proof.
  unfold onMessage. destruct (session msg) as [sess|]; [|apply keeps_ret].
  apply keeps_bind; [by intros st|]. intros config.
  apply keeps_try_catch; [apply dispatch_truthy | apply on_error_truthy].
Qed.

Lemma reachable_truthy st : reachable st -> cache_truthy st.
Proof.
  induction 1 as [t|st t _ IH|st h _ IH|w st _ IH|w k1 k2 k3 k4 port msg st _ IH].
  - intros k e. simpl. by rewrite lookup_empty.
  - exact IH.
  - exact IH.
  - by apply getAccessToken_truthy.
  - by apply onMessage_truthy.
Qed.

(** ** The session channel handler *)

(** C9. A message without a session payload is ignored: the run ends at the
    guard of line 57 with the state it started in, so no configuration is
    read, no backend is called and no envelope is posted. *)
Theorem onMessage_without_session w k1 k2 k3 k4 port st :
  onMessage w k1 k2 k3 k4 port (mkMsg None) st = (Return tt, st).
Proof. reflexivity. Qed.


(** ** The credential cache *)

(** C2. On a cache miss where the ambient session is used (not Safari): a
    response of status 403 makes [getAccessToken] throw CLOUDFLARE, which is
    not UNAUTHORIZED; and whenever [getAccessToken] throws, the cache is the
    one it started with. *)
Theorem getAccessToken_blocked w st :
  isSafari w = false ->
  truthy (expiry_get cache_maxAge (now st) (cache st) KEY_ACCESS_TOKEN) = false ->
  (forall body,
      fetch w session_url (log (EvCacheGet KEY_ACCESS_TOKEN) st)
      = FetchResponse 403 body ->
      exists st', getAccessToken w st = (Throw CLOUDFLARE, st') /\
                  CLOUDFLARE <> UNAUTHORIZED /\ cache st' = cache st) /\
  (forall e st', getAccessToken w st = (Throw e, st') -> cache st' = cache st).
Proof.
  intros Hsafari Hmiss. split.
  - intros body Hfetch. unfold getAccessToken. run_unfold. simpl.
    rewrite Hmiss, Hsafari, Hfetch. simpl. eexists. by repeat split.
  - intros e st'. apply getAccessToken_throw_cache.
Qed.

(** C3. In a reachable state whose cache holds an entry [e] for the
    credential: up to 10 seconds after [e] was stored, [getAccessToken]
    returns the value of [e] after two reads of the cache and nothing else
    (no fetch, no configuration read); later than that the cache no longer
    gives the entry, [getAccessToken] goes on to refetch (the configuration
    read on Safari, the network request elsewhere), and a value it returns
    is one it has just stored. *)
Theorem getAccessToken_window w st e :
  reachable st ->
  cache st !! KEY_ACCESS_TOKEN = Some e ->
  ((now st <= storedAt e + 10000)%Z ->
   getAccessToken w st =
   (Return (value e),
    log (EvCacheGet KEY_ACCESS_TOKEN) (log (EvCacheGet KEY_ACCESS_TOKEN) st)) /\
   turn_events st (snd (getAccessToken w st)) =
   [EvCacheGet KEY_ACCESS_TOKEN; EvCacheGet KEY_ACCESS_TOKEN]) /\
  ((now st > storedAt e + 10000)%Z ->
   expiry_get cache_maxAge (now st) (cache st) KEY_ACCESS_TOKEN = VUndefined /\
   (exists evs,
       turn_events st (snd (getAccessToken w st)) =
       EvCacheGet KEY_ACCESS_TOKEN
       :: (if isSafari w then EvGetUserConfig else EvFetch session_url) :: evs) /\
   (forall v st', getAccessToken w st = (Return v, st') ->
                  In (EvCacheSet KEY_ACCESS_TOKEN v) (turn_events st st'))).
Proof.
  intros Hreach He. pose proof (reachable_truthy st Hreach _ _ He) as Htruthy.
  split.
  - intros Hle.
    assert (Hget : expiry_get cache_maxAge (now st) (cache st) KEY_ACCESS_TOKEN
                   = value e).
    { unfold expiry_get, unexpired, cache_maxAge. rewrite He.
      destruct (Z.leb_spec (now st) (storedAt e + 10 * 1000)); [done | lia]. }
    rewrite getAccessToken_hit; rewrite Hget; try done. split; [done|].
    apply turn_events_app. simpl. by rewrite <- app_assoc.
  - intros Hgt.
    assert (Hget : expiry_get cache_maxAge (now st) (cache st) KEY_ACCESS_TOKEN
                   = VUndefined).
    { unfold expiry_get, unexpired, cache_maxAge. rewrite He.
      destruct (Z.leb_spec (now st) (storedAt e + 10 * 1000)); [lia | done]. }
    split; [done|]. unfold getAccessToken. run_unfold. simpl. rewrite Hget. simpl.
    split.
    + run_cases; eexists; apply turn_events_app; simpl;
        rewrite <- ?app_assoc; simpl; reflexivity.
    + intros v st'. run_cases; intros [= <- <-]; try discriminate;
        (erewrite turn_events_app;
         [|simpl; rewrite <- ?app_assoc; simpl; reflexivity]);
        unfold expiry_get, expiry_set; simpl; rewrite lookup_insert_eq; simpl;
        unfold unexpired, cache_maxAge; simpl;
        match goal with
        | |- context [(?a <=? ?a + 10 * 1000)%Z] =>
            destruct (Z.leb_spec a (a + 10 * 1000)); [|lia]
        end; simpl; auto.
Qed.

(** C10, as amended.  Where the ambient session is used and the cache
    misses, a response whose body is not parseable JSON is treated exactly
    like one of the same status whose body is the empty object: the call
    throws and leaves the cache as it was; what it throws is UNAUTHORIZED
    when the status is not 403, and CLOUDFLARE when it is. *)
Theorem getAccessToken_unparseable w st status e :
  isSafari w = false ->
  truthy (expiry_get cache_maxAge (now st) (cache st) KEY_ACCESS_TOKEN) = false ->
  fetch w session_url (log (EvCacheGet KEY_ACCESS_TOKEN) st)
  = FetchResponse status (BodyInvalid e) ->
  let w' := mkWorld (isSafari w) (getUserConfig w)
                    (fun _ _ => FetchResponse status (BodyValid (DataObject ∅)))
                    (latency w) (uuidv4 w) (backend w) (postMessage w) in
  getAccessToken w st = getAccessToken w' st /\
  (exists e' st', getAccessToken w st = (Throw e', st') /\ cache st' = cache st) /\
  (status <> 403%Z ->
   exists st', getAccessToken w st = (Throw UNAUTHORIZED, st')) /\
  (status = 403%Z ->
   exists st', getAccessToken w st = (Throw CLOUDFLARE, st')).
Proof.
  intros Hsafari Hmiss Hfetch w'. split; [|split; [|split]].
  - unfold getAccessToken. run_unfold. simpl.
    rewrite Hmiss, Hsafari, Hfetch. simpl. done.
  - unfold getAccessToken. run_unfold. simpl.
    rewrite Hmiss, Hsafari, Hfetch. simpl.
    destruct (status =? 403)%Z; simpl; by eexists _, _.
  - intros Hstatus. unfold getAccessToken. run_unfold. simpl.
    rewrite Hmiss, Hsafari, Hfetch. simpl.
    destruct (Z.eqb_spec status 403); [done|]. simpl.
    by eexists.
  - intros ->. unfold getAccessToken. run_unfold. simpl.
    rewrite Hmiss, Hsafari, Hfetch. simpl. by eexists.
Qed.

(** ** Dispatch *)

(** The backend calls of one request cycle: none for an unknown key or when
    the credential could not be had, one otherwise, with the session object
    and the arguments it is given. *)
Lemma onMessage_backend_calls w k1 k2 k3 k4 port sess st :
  let config := getUserConfig w st in
  let s0 := object_at sess st in
  backend_calls
    (turn_events st (snd (onMessage w k1 k2 k3 k4 port (mkMsg (Some sess)) st))) =
  match classify k1 k2 k3 k4 (modelName config) with
  | None => []
  | Some WebSession =>
      match getAccessToken w (tick w (log EvGetUserConfig st)) with
      | (Return token, _) =>
          let s := fill_identifiers (uuidv4 w (uuids st))
                                    (uuidv4 w (S (uuids st))) s0 in
          [(WebSession, prop s "question", s, [token])]
      | (Throw _, _) => []
      end
  | Some f =>
      [(f, prop s0 "question", s0, [VStr (apiKey config); VStr (modelName config)])]
  end.
Proof.
  intros config s0.
  destruct (classify k1 k2 k3 k4 (modelName config)) as [f|] eqn:Hc.
  - assert (Htoken : f ≠ WebSession ->
      backend_calls
        (turn_events st (snd (onMessage w k1 k2 k3 k4 port (mkMsg (Some sess)) st))) =
      [(f, prop s0 "question", s0, [VStr (apiKey config); VStr (modelName config)])]).
    { intros Hf.
      destruct (onMessage_token w k1 k2 k3 k4 port sess st f Hc Hf)
        as (r & tail & st' & Hrun & Htail & Hev).
      rewrite Hrun, Hev.
      rewrite !backend_calls_cons. cbn [backend_call].
      by rewrite backend_calls_app, backend_calls_posts,
           (backend_calls_tail _ _ _ Htail). }
    destruct f; try (apply Htoken; done).
    destruct (getAccessToken w (tick w (log EvGetUserConfig st)))
      as [[token|e] st2] eqn:Hget.
    + destruct (onMessage_web_return w k1 k2 k3 k4 port sess st token st2 Hc Hget)
        as (evs & r & tail & st' & Hrun & Hevs & Htail & Hev).
      rewrite Hrun, Hev.
      rewrite backend_calls_cons. cbn [backend_call].
      rewrite backend_calls_app, (backend_calls_credential evs Hevs).
      rewrite backend_calls_cons. cbn [backend_call].
      rewrite backend_calls_app.
      assert (Hp : backend_calls
                (if loose_eq_null (prop (object_at sess st) "parentMessageId")
                 then [EvUuid (uuidv4 w (S (uuids st)))] else []) = [])
        by (by destruct (loose_eq_null _)).
      rewrite Hp, backend_calls_cons. cbn [backend_call].
      by rewrite backend_calls_app, backend_calls_posts,
           (backend_calls_tail _ _ _ Htail).
    + destruct (onMessage_web_throw w k1 k2 k3 k4 port sess st e st2 Hc Hget)
        as (evs & tail & st' & Hrun & Hevs & Htail & Hev & _).
      rewrite Hrun, Hev.
      rewrite backend_calls_cons. cbn [backend_call].
      by rewrite backend_calls_app, (backend_calls_credential evs Hevs),
           (backend_calls_tail _ _ _ Htail).
  - rewrite onMessage_unknown by done.
    unfold turn_events. simpl. by rewrite drop_app_length.
Qed.

Lemma fill_identifiers_messageId id1 id2 (s0 : gmap string jsval) :
  fill_identifiers id1 id2 s0 !! "messageId" = Some (VStr id1).
Proof.
  unfold fill_identifiers. destruct (loose_eq_null _).
  - rewrite lookup_insert_ne by done. apply lookup_insert_eq.
  - apply lookup_insert_eq.
Qed.

Lemma fill_identifiers_parent id1 id2 (s0 : gmap string jsval) :
  fill_identifiers id1 id2 s0 !! "parentMessageId" =
  if loose_eq_null (prop s0 "parentMessageId")
  then Some (VStr id2) else s0 !! "parentMessageId".
Proof.
  unfold fill_identifiers. rewrite prop_insert_ne by done.
  destruct (loose_eq_null _).
  - apply lookup_insert_eq.
  - by rewrite lookup_insert_ne.
Qed.

Lemma fill_identifiers_other id1 id2 (s0 : gmap string jsval) k :
  k ≠ "messageId" -> k ≠ "parentMessageId" ->
  fill_identifiers id1 id2 s0 !! k = s0 !! k.
Proof.
  intros H1 H2. unfold fill_identifiers. destruct (loose_eq_null _).
  - by rewrite !lookup_insert_ne.
  - by rewrite lookup_insert_ne.
Qed.

(** C4, as amended.  A web-session request, with a [uuidv4] that never
    repeats.  When the credential is obtained, the one backend call of the
    cycle is given a session whose [messageId] is the next draw of
    [uuidv4], hence none of the identifiers drawn before; a
    [parentMessageId] that was missing, undefined or null is the draw after
    that, different from the [messageId] and from the earlier draws; any
    other [parentMessageId] is passed on as it came.  When the credential is
    not obtained, no backend is called, no identifier is drawn and the
    session object is left as it was. *)
Theorem web_session_identifiers w k1 k2 k3 k4 port sess st :
  (forall i j, uuidv4 w i = uuidv4 w j -> i = j) ->
  classify k1 k2 k3 k4 (modelName (getUserConfig w st)) = Some WebSession ->
  let s0 := object_at sess st in
  let id1 := uuidv4 w (uuids st) in
  let id2 := uuidv4 w (S (uuids st)) in
  let st' := snd (onMessage w k1 k2 k3 k4 port (mkMsg (Some sess)) st) in
  match getAccessToken w (tick w (log EvGetUserConfig st)) with
  | (Return token, _) =>
      exists s,
        backend_calls (turn_events st st')
        = [(WebSession, prop s "question", s, [token])] /\
        s !! "messageId" = Some (VStr id1) /\
        (forall j, j < uuids st -> uuidv4 w j <> id1) /\
        (loose_eq_null (prop s0 "parentMessageId") = true ->
         s !! "parentMessageId" = Some (VStr id2) /\ id2 <> id1 /\
         forall j, j < uuids st -> uuidv4 w j <> id2) /\
        (loose_eq_null (prop s0 "parentMessageId") = false ->
         s !! "parentMessageId" = s0 !! "parentMessageId")
  | (Throw _, _) =>
      backend_calls (turn_events st st') = [] /\
      object_at sess st' = s0 /\ uuids st' = uuids st
  end.
Proof.
  intros Hinj Hc s0 id1 id2 st'.
  destruct (getAccessToken w (tick w (log EvGetUserConfig st)))
    as [[token|e] st2] eqn:Hget.
  - exists (fill_identifiers id1 id2 s0).
    unfold st'. rewrite onMessage_backend_calls, Hc, Hget.
    split; [done|]. split; [apply fill_identifiers_messageId|].
    split; [intros j Hj Heq; apply Hinj in Heq; lia|].
    rewrite fill_identifiers_parent. split; intros ->; [|done].
    split; [done|]. split.
    + intros Heq. apply Hinj in Heq. lia.
    + intros j Hj Heq. apply Hinj in Heq. lia.
  - unfold st'. rewrite onMessage_backend_calls, Hc, Hget. split; [done|].
    destruct (onMessage_web_throw w k1 k2 k3 k4 port sess st e st2 Hc Hget)
      as (evs & tail & st1 & -> & _ & _ & _ & Hobj & Huuid).
    done.
Qed.

(** C5, as amended.  Whatever the request, a backend it reaches is given
    the caller's session with every field the caller set, except that a
    web-session request has [messageId] overwritten and a null or undefined
    [parentMessageId] filled in; a request of another family reaches its
    backend with the session exactly as the caller sent it. *)
Theorem session_frame w k1 k2 k3 k4 port sess st f q s args :
  In (f, q, s, args)
     (backend_calls
        (turn_events st (snd (onMessage w k1 k2 k3 k4 port (mkMsg (Some sess)) st)))) ->
  (f <> WebSession -> s = object_at sess st) /\
  (forall k v, object_at sess st !! k = Some v ->
               k <> "messageId" ->
               (k = "parentMessageId" -> loose_eq_null v = false) ->
               s !! k = Some v).
Proof.
  rewrite onMessage_backend_calls.
  destruct (classify _ _ _ _ _) as [f'|]; [|intros []].
  assert (Hsame : In (f, q, s, args)
            [(f', prop (object_at sess st) "question", object_at sess st,
              [VStr (apiKey (getUserConfig w st));
               VStr (modelName (getUserConfig w st))])] ->
          (f <> WebSession -> s = object_at sess st) /\
          (forall k v, object_at sess st !! k = Some v -> k <> "messageId" ->
                       (k = "parentMessageId" -> loose_eq_null v = false) ->
                       s !! k = Some v)).
  { intros [[= <- <- <- <-]|[]]. by split. }
  destruct f'; try exact Hsame.
  destruct (getAccessToken _ _) as [[token|e] st2]; [|intros []].
  intros [[= <- <- <- <-]|[]]. split; [done|].
  intros k v Hk Hmid Hpar.
  destruct (decide (k = "parentMessageId")) as [->|Hne].
  - rewrite fill_identifiers_parent. unfold prop. rewrite Hk. simpl.
    by rewrite (Hpar eq_refl).
  - by rewrite fill_identifiers_other.
Qed.

(** C6. With disjoint key lists, the family the dispatch chain gives a key
    is the one whose list holds it, so a key of some list belongs to exactly
    one family; and a request whose model key is in no list only reads the
    configuration: no backend is called, the credential is neither read nor
    fetched, and no envelope is posted. *)
Theorem families_partition w k1 k2 k3 k4 :
  families_disjoint k1 k2 k3 k4 ->
  (forall k f, In k (family_keys k1 k2 k3 k4 f) <-> classify k1 k2 k3 k4 k = Some f) /\
  (forall k, (exists f, In k (family_keys k1 k2 k3 k4 f)) ->
             exists! f, In k (family_keys k1 k2 k3 k4 f)) /\
  (forall port sess st,
      classify k1 k2 k3 k4 (modelName (getUserConfig w st)) = None ->
      onMessage w k1 k2 k3 k4 port (mkMsg (Some sess)) st
      = (Return tt, tick w (log EvGetUserConfig st)) /\
      turn_events st (snd (onMessage w k1 k2 k3 k4 port (mkMsg (Some sess)) st))
      = [EvGetUserConfig]).
Proof.
  intros Hdisj. split; [|split].
  - intros k f. split; [|apply classify_In].
    intros Hin. destruct (classify k1 k2 k3 k4 k) as [f'|] eqn:Hc.
    + f_equal. apply (Hdisj k); [by apply classify_In | done].
    + destruct (proj1 (classify_None k1 k2 k3 k4 k) Hc f Hin).
  - intros k [f Hin]. exists f. split; [done|]. intros f' Hin'. by apply (Hdisj k).
  - intros port sess st Hc. rewrite onMessage_unknown by done. split; [done|].
    apply turn_events_app. done.
Qed.

Lemma In_error_events port r ev :
  In ev (error_events port r) ->
  (exists e, ev = EvPost port e) \/ ev = EvCacheDelete KEY_ACCESS_TOKEN.
Proof.
  destruct r as [a|e]; [intros []|]. simpl.
  destruct (negb _); [|intros []].
  intros [<-|[<-|[]]]; [left; by eexists | by right].
Qed.

(** C7. A request whose model key is dispatched to the Completion,
    ChatCompletion or Custom family: its one backend call is given the
    session as sent and [apiKey] and [modelName] of the configuration read
    for this request, and the cycle neither reads the credential cache nor
    fetches a credential. *)
Theorem token_families_skip_cache w k1 k2 k3 k4 port sess st f :
  classify k1 k2 k3 k4 (modelName (getUserConfig w st)) = Some f ->
  f <> WebSession ->
  let config := getUserConfig w st in
  let s0 := object_at sess st in
  let evs :=
    turn_events st (snd (onMessage w k1 k2 k3 k4 port (mkMsg (Some sess)) st)) in
  backend_calls evs =
    [(f, prop s0 "question", s0, [VStr (apiKey config); VStr (modelName config)])] /\
  (forall k, ~ In (EvCacheGet k) evs) /\
  (forall url, ~ In (EvFetch url) evs) /\
  (forall k v, ~ In (EvCacheSet k v) evs).
Proof.
  intros Hc Hf config s0 evs. split.
  - subst config s0 evs. rewrite onMessage_backend_calls. cbv zeta. rewrite Hc.
    by destruct f.
  - destruct (onMessage_token w k1 k2 k3 k4 port sess st f Hc Hf)
      as (r & tail & st' & Hrun & Htail & Hev).
    unfold evs. rewrite Hrun, Hev.
    assert (Hno : forall ev,
               In ev (EvGetUserConfig
                      :: EvBackend f port (prop (object_at sess st) "question")
                           (object_at sess st)
                           [VStr (apiKey (getUserConfig w st));
                            VStr (modelName (getUserConfig w st))]
                      :: map (EvPost port) (b_posts r) ++ tail) ->
               match ev with
               | EvCacheGet _ | EvFetch _ | EvCacheSet _ _ => False
               | _ => True
               end).
    { intros ev [<-|[<-|Hin]]; try done.
      apply in_app_or in Hin as [Hin|Hin].
      - apply in_map_iff in Hin as (e & <- & _). done.
      - destruct Htail as [-> | ->]; [destruct Hin|].
        apply In_error_events in Hin as [[e ->]| ->]; done. }
    repeat split; intros; intros Hin; apply (Hno _ Hin).
Qed.

(** * The sample runs, checked *)

Module Runs.
Import Sample.

Lemma stars_length n : String.length (stars n) = n.
Proof. induction n as [|n IH]; simpl; [done | by f_equal]. Qed.

Lemma uuid_of_inj i j : uuid_of i = uuid_of j -> i = j.
Proof.
  unfold uuid_of. intros [= H].
  apply (f_equal String.length) in H. by rewrite !stars_length in H.
Qed.

Lemma sample_keys_disjoint : families_disjoint web_keys gpt_keys chat_keys custom_keys.
Proof.
  intros k f f' H H'.
  destruct f, f'; simpl in H, H'; try done; intuition congruence.
Qed.

Example includes_aborted : includes "The user aborted a request." "aborted" = true.
Proof. reflexivity. Qed.

Example includes_abort : includes "abort" "aborted" = false.
Proof. reflexivity. Qed.

Example replace_first_once :
  replace_first "ChatGPTBox-MenuChatGPTBox-Menu" "ChatGPTBox-Menu" = "ChatGPTBox-Menu".
Proof. reflexivity. Qed.

(** A session endpoint that answers with the JSON text null. *)
Example null_body_is_a_TypeError :
  fst (getAccessToken
         (world "chatgptFree" (FetchResponse 200 (BodyValid (DataPrim VNull))) answering)
         (init_state 0))
  = Throw (mkError "Cannot read properties of null (reading 'accessToken')").
Proof. vm_compute. reflexivity. Qed.

(** Scenario 1 of the spec: empty cache, the credential is fetched, the
    backend answers, and the cache holds the credential afterwards. *)
Example scenario_web_session :
  let w := world "chatgptFree" session_ok answering in
  let st := with_session first_turn in
  let st' := snd (onMessage w web_keys gpt_keys chat_keys custom_keys 7
                            (mkMsg (Some 1)) st) in
  posted_on 7 (turn_events st st') = [{[ "answer" := VStr "42" ]}] /\
  expiry_get cache_maxAge (now st') (cache st') KEY_ACCESS_TOKEN = VStr "tok".
Proof. split; vm_compute; reflexivity. Qed.



Lemma getAccessToken_blocked_witness :
  exists st',
    getAccessToken (world "chatgptFree" session_blocked answering) (init_state 0)
    = (Throw CLOUDFLARE, st') /\
    CLOUDFLARE <> UNAUTHORIZED /\ cache st' = cache (init_state 0).
Proof.
  apply (proj1 (getAccessToken_blocked
                  (world "chatgptFree" session_blocked answering) (init_state 0)
                  eq_refl eq_refl)
               (BodyInvalid (mkError "Unexpected token <"))).
  reflexivity.
Defined.

(** A credential stored at time 10 is returned at time 10010 and refetched
    at time 10011. *)
Lemma getAccessToken_window_witness :
  let w := world "chatgptFree" session_ok answering in
  (getAccessToken w (set_now 10010 st_cached) =
   (Return (VStr "tok"),
    log (EvCacheGet KEY_ACCESS_TOKEN)
        (log (EvCacheGet KEY_ACCESS_TOKEN) (set_now 10010 st_cached))) /\
   turn_events (set_now 10010 st_cached)
               (snd (getAccessToken w (set_now 10010 st_cached))) =
   [EvCacheGet KEY_ACCESS_TOKEN; EvCacheGet KEY_ACCESS_TOKEN]) /\
  (exists evs,
      turn_events (set_now 10011 st_cached)
                  (snd (getAccessToken w (set_now 10011 st_cached))) =
      EvCacheGet KEY_ACCESS_TOKEN :: EvFetch session_url :: evs).
Proof.
  intros w.
  assert (Hreach : forall t, reachable (set_now t st_cached)).
  { intros t. apply reach_wait.
    apply (reach_getAccessToken (world "chatgptFree" session_ok answering)).
    apply reach_init. }
  split.
  - apply (proj1 (getAccessToken_window w (set_now 10010 st_cached)
                    (mkEntry (VStr "tok") 10) (Hreach _) eq_refl)).
    vm_compute. discriminate.
  - apply (proj2 (getAccessToken_window w (set_now 10011 st_cached)
                    (mkEntry (VStr "tok") 10) (Hreach _) eq_refl)).
    vm_compute. reflexivity.
Defined.

(** C10: a Cloudflare challenge page, status 403 and a body that is not
    JSON, is not answered with UNAUTHORIZED. *)
Lemma getAccessToken_unparseable_403 :
  let w := world "chatgptFree" session_blocked answering in
  isSafari w = false /\
  fetch w session_url (log (EvCacheGet KEY_ACCESS_TOKEN) (init_state 0))
  = FetchResponse 403 (BodyInvalid (mkError "Unexpected token <")) /\
  fst (getAccessToken w (init_state 0)) = Throw CLOUDFLARE /\
  ~ (exists st', getAccessToken w (init_state 0) = (Throw UNAUTHORIZED, st')).
Proof.
  intros w. repeat split. intros [st' H]. vm_compute in H. discriminate.
Qed.

Lemma getAccessToken_unparseable_witness :
  let w := world "chatgptFree" session_garbled answering in
  let w' := mkWorld (isSafari w) (getUserConfig w)
                    (fun _ _ => FetchResponse 200 (BodyValid (DataObject ∅)))
                    (latency w) (uuidv4 w) (backend w) (postMessage w) in
  getAccessToken w (init_state 0) = getAccessToken w' (init_state 0) /\
  (exists e' st', getAccessToken w (init_state 0) = (Throw e', st') /\
                  cache st' = cache (init_state 0)) /\
  (200%Z <> 403%Z ->
   exists st', getAccessToken w (init_state 0) = (Throw UNAUTHORIZED, st')) /\
  (200%Z = 403%Z ->
   exists st', getAccessToken w (init_state 0) = (Throw CLOUDFLARE, st')).
Proof.
  intros w.
  apply (getAccessToken_unparseable w (init_state 0) 200
           (mkError "Unexpected token <") eq_refl eq_refl eq_refl).
Defined.

(** C4: a web-session request that is blocked at the credential source
    draws no identifier and reaches no backend. *)
Lemma web_session_blocked_no_messageId :
  let w := world "chatgptFree" session_blocked answering in
  let st := with_session first_turn in
  let st' := snd (onMessage w web_keys gpt_keys chat_keys custom_keys 7
                            (mkMsg (Some 1)) st) in
  classify web_keys gpt_keys chat_keys custom_keys (modelName (getUserConfig w st))
  = Some WebSession /\
  object_at 1 st' = first_turn /\
  ~ messageId_assigned (turn_events st st').
Proof.
  intros w st st'. split; [reflexivity|]. split; [reflexivity|].
  intros (id & f & q & s & a & Hid & _).
  vm_compute in Hid. intuition discriminate.
Qed.

Lemma web_session_identifiers_witness :
  let w := world "chatgptFree" session_ok answering in
  let st := with_session first_turn in
  exists s,
    backend_calls
      (turn_events st (snd (onMessage w web_keys gpt_keys chat_keys custom_keys 7
                                      (mkMsg (Some 1)) st)))
    = [(WebSession, prop s "question", s, [VStr "tok"])] /\
    s !! "messageId" = Some (VStr (uuid_of 0)) /\
    (forall j, j < 0 -> uuid_of j <> uuid_of 0) /\
    (loose_eq_null (prop first_turn "parentMessageId") = true ->
     s !! "parentMessageId" = Some (VStr (uuid_of 1)) /\ uuid_of 1 <> uuid_of 0 /\
     forall j, j < 0 -> uuid_of j <> uuid_of 1) /\
    (loose_eq_null (prop first_turn "parentMessageId") = false ->
     s !! "parentMessageId" = first_turn !! "parentMessageId").
Proof.
  intros w st.
  exact (web_session_identifiers w web_keys gpt_keys chat_keys custom_keys 7 1 st
           uuid_of_inj eq_refl).
Defined.

(** C5: a web-session request that comes with a [messageId] reaches its
    backend with another one. *)
Lemma web_session_overwrites_messageId :
  let w := world "chatgptFree" session_ok answering in
  let st := with_session numbered_turn in
  let st' := snd (onMessage w web_keys gpt_keys chat_keys custom_keys 7
                            (mkMsg (Some 1)) st) in
  object_at 1 st = numbered_turn /\
  numbered_turn !! "messageId" = Some (VStr "m-1") /\
  ~ caller_fields_kept numbered_turn (turn_events st st').
Proof.
  intros w st st'. split; [reflexivity|]. split; [reflexivity|].
  intros Hkept.
  specialize (Hkept WebSession (VStr "hi")
                (fill_identifiers (uuid_of 0) (uuid_of 1) numbered_turn)
                [VStr "tok"]).
  assert (Hin : In (WebSession, VStr "hi",
                    fill_identifiers (uuid_of 0) (uuid_of 1) numbered_turn,
                    [VStr "tok"])
                   (backend_calls (turn_events st st'))).
  { unfold st'. rewrite onMessage_backend_calls. left. reflexivity. }
  specialize (Hkept Hin "messageId" (VStr "m-1") eq_refl).
  rewrite fill_identifiers_messageId in Hkept. discriminate.
Qed.

Lemma session_frame_witness :
  let w := world "chatgptFree" session_ok answering in
  let st := with_session numbered_turn in
  let s := fill_identifiers (uuid_of 0) (uuid_of 1) numbered_turn in
  (WebSession <> WebSession -> s = object_at 1 st) /\
  (forall k v, object_at 1 st !! k = Some v ->
               k <> "messageId" ->
               (k = "parentMessageId" -> loose_eq_null v = false) ->
               s !! k = Some v).
Proof.
  intros w st s.
  apply (session_frame w web_keys gpt_keys chat_keys custom_keys 7 1 st
           WebSession (VStr "hi") s [VStr "tok"]).
  rewrite onMessage_backend_calls. left. reflexivity.
Defined.

Lemma families_partition_witness :
  let w := world "unheard-of" session_ok answering in
  (forall k f, In k (family_keys web_keys gpt_keys chat_keys custom_keys f) <->
               classify web_keys gpt_keys chat_keys custom_keys k = Some f) /\
  (forall k, (exists f, In k (family_keys web_keys gpt_keys chat_keys custom_keys f)) ->
             exists! f, In k (family_keys web_keys gpt_keys chat_keys custom_keys f)) /\
  (forall port sess st,
      classify web_keys gpt_keys chat_keys custom_keys
               (modelName (getUserConfig w st)) = None ->
      onMessage w web_keys gpt_keys chat_keys custom_keys port (mkMsg (Some sess)) st
      = (Return tt, tick w (log EvGetUserConfig st)) /\
      turn_events st (snd (onMessage w web_keys gpt_keys chat_keys custom_keys port
                                     (mkMsg (Some sess)) st))
      = [EvGetUserConfig]).
Proof.
  intros w. apply (families_partition w), sample_keys_disjoint.
Defined.

Lemma token_families_skip_cache_witness :
  let w := world "chatgptApi35" session_ok answering in
  let st := with_session first_turn in
  let evs := turn_events st (snd (onMessage w web_keys gpt_keys chat_keys custom_keys
                                            7 (mkMsg (Some 1)) st)) in
  backend_calls evs =
    [(ChatCompletion, prop first_turn "question", first_turn,
      [VStr "sk-test"; VStr "chatgptApi35"])] /\
  (forall k, ~ In (EvCacheGet k) evs) /\
  (forall url, ~ In (EvFetch url) evs) /\
  (forall k v, ~ In (EvCacheSet k v) evs).
Proof.
  intros w st.
  apply (token_families_skip_cache w web_keys gpt_keys chat_keys custom_keys 7 1 st
           ChatCompletion eq_refl).
  discriminate.
Defined.

End Runs.

(** A click on the item of the selection tool "explain", after the rebuilds
    at load and on one REFRESH_MENU message. *)
Example refreshMenu_twice_explain :
  let rebuild := Menu.refreshMenu [("new_chat", "New Chat")] ["explain"] ["Explain"] in
  let info := Menu.mkInfo "ChatGPTBox-Menuexplain" (VStr "hi") in
  map Menu.id (Menu.menus (rebuild (rebuild Menu.fresh_browser))) =
    ["ChatGPTBox-Menu"; "ChatGPTBox-Menunew_chat"; "ChatGPTBox-Menuseparator1";
     "ChatGPTBox-Menuexplain"] /\
  Menu.sent (Menu.click info 7 (rebuild (rebuild Menu.fresh_browser))) =
    [(7, Menu.mkTabMessage "CREATE_MENU" "explain" (VStr "hi"));
     (7, Menu.mkTabMessage "CREATE_MENU" "explain" (VStr "hi"))].
Proof. split; reflexivity. Qed.

(** * Further properties *)

(** ** [getAccessToken] *)

Lemma expiry_get_set t m k v :
  expiry_get cache_maxAge t (expiry_set t m k v) k = v.
Proof.
  unfold expiry_get, expiry_set, unexpired, cache_maxAge.
  rewrite lookup_insert_eq. simpl.
  destruct (Z.leb_spec t (t + 10 * 1000)); [done | lia].
Qed.

(** On a miss the first thing after the cache read is the refetch. *)
Lemma getAccessToken_miss_events w st :
  truthy (expiry_get cache_maxAge (now st) (cache st) KEY_ACCESS_TOKEN) = false ->
  exists evs,
    turn_events st (snd (getAccessToken w st)) =
    EvCacheGet KEY_ACCESS_TOKEN
    :: (if isSafari w then EvGetUserConfig else EvFetch session_url) :: evs.
Proof.
  intros Hmiss. unfold getAccessToken. run_unfold. simpl. rewrite Hmiss.
  run_cases; eexists; apply turn_events_app; simpl;
    rewrite <- ?app_assoc; simpl; reflexivity.
Qed.

(** A returned credential is truthy and is what the cache gives at the time
    of the return. *)
Lemma getAccessToken_return_cached w st v st' :
  getAccessToken w st = (Return v, st') ->
  truthy v = true /\
  expiry_get cache_maxAge (now st') (cache st') KEY_ACCESS_TOKEN = v.
Proof.
  intros Hrun.
  cut (forall P : jsval -> State -> Prop,
          (forall v0 st0,
              truthy v0 = true ->
              expiry_get cache_maxAge (now st0) (cache st0) KEY_ACCESS_TOKEN = v0 ->
              P v0 st0) -> P v st').
  { intros H. apply H. by split. }
  intros P HP. revert Hrun. unfold getAccessToken. run_unfold. simpl.
  run_cases; intros [= <- <-]; apply HP; simpl; rewrite ?expiry_get_set;
    try done; by apply negb_false_iff.
Qed.

(** X1. A credential that [getAccessToken] returns is truthy, and a second
    call made at once, in whatever world, returns the same credential after
    two reads of the cache and nothing else. *)
Theorem getAccessToken_again w w' st v st' :
  getAccessToken w st = (Return v, st') ->
  truthy v = true /\
  getAccessToken w' st' =
  (Return v, log (EvCacheGet KEY_ACCESS_TOKEN) (log (EvCacheGet KEY_ACCESS_TOKEN) st')).
Proof.
  intros Hrun.
  destruct (getAccessToken_return_cached w st v st' Hrun) as [Hv Hget].
  split; [done|].
  rewrite getAccessToken_hit; rewrite Hget; done.
Qed.

(** X2. On Safari a cache miss never goes to the network.  A truthy
    [accessToken] of the configuration is returned and stored with the time
    at which the configuration read came back; otherwise the call throws
    UNAUTHORIZED and the cache is not written. *)
Theorem getAccessToken_safari w st :
  isSafari w = true ->
  truthy (expiry_get cache_maxAge (now st) (cache st) KEY_ACCESS_TOKEN) = false ->
  let st1 := log (EvCacheGet KEY_ACCESS_TOKEN) st in
  let token := accessToken (getUserConfig w st1) in
  let st' := snd (getAccessToken w st) in
  fetches (turn_events st st') = [] /\
  (truthy token = true ->
   fst (getAccessToken w st) = Return token /\
   cache st' !! KEY_ACCESS_TOKEN = Some (mkEntry token (now st')) /\
   now st' = (now st + latency w (log EvGetUserConfig st1))%Z) /\
  (truthy token = false ->
   fst (getAccessToken w st) = Throw UNAUTHORIZED /\ cache st' = cache st).
Proof.
  intros Hsafari Hmiss st1 token st'. subst st1 token st'.
  unfold getAccessToken. run_unfold. simpl. rewrite Hmiss, Hsafari. simpl.
  destruct (truthy (accessToken _)) eqn:Htok; simpl.
  - split; [|split; [|done]].
    + erewrite turn_events_app; [|simpl; rewrite <- ?app_assoc; simpl; reflexivity].
      done.
    + intros _. rewrite expiry_get_set. split; [done|].
      split; [|done]. unfold expiry_set. by rewrite lookup_insert_eq.
  - split; [|split; [done|]].
    + erewrite turn_events_app; [|simpl; rewrite <- ?app_assoc; simpl; reflexivity].
      done.
    + done.
Qed.

(** X3. Elsewhere than on Safari, a cache miss whose network request is
    rejected throws the error of the rejection itself; the cache is as it
    was and the run consists of the cache read and the request. *)
Theorem getAccessToken_network_error w st e :
  isSafari w = false ->
  truthy (expiry_get cache_maxAge (now st) (cache st) KEY_ACCESS_TOKEN) = false ->
  fetch w session_url (log (EvCacheGet KEY_ACCESS_TOKEN) st) = FetchReject e ->
  exists st',
    getAccessToken w st = (Throw e, st') /\
    cache st' = cache st /\
    turn_events st st' = [EvCacheGet KEY_ACCESS_TOKEN; EvFetch session_url].
Proof.
  intros Hsafari Hmiss Hfetch. unfold getAccessToken. run_unfold. simpl.
  rewrite Hmiss, Hsafari, Hfetch. simpl. eexists. split; [reflexivity|].
  split; [done|]. apply turn_events_app. simpl. by rewrite <- app_assoc.
Qed.

(** X4. Elsewhere than on Safari, a cache miss returns a credential exactly
    when the response has a status other than 403 and a JSON object body
    whose [accessToken] is truthy; what is returned is that field. *)
Theorem getAccessToken_succeeds_iff w st v :
  isSafari w = false ->
  truthy (expiry_get cache_maxAge (now st) (cache st) KEY_ACCESS_TOKEN) = false ->
  (exists st', getAccessToken w st = (Return v, st')) <->
  (exists status fields,
      fetch w session_url (log (EvCacheGet KEY_ACCESS_TOKEN) st)
      = FetchResponse status (BodyValid (DataObject fields)) /\
      status <> 403%Z /\ prop fields "accessToken" = v /\ truthy v = true).
Proof.
  intros Hsafari Hmiss. unfold getAccessToken. run_unfold. simpl.
  rewrite Hmiss, Hsafari. simpl.
  destruct (fetch w session_url _) as [e|status body] eqn:Hfetch; simpl.
  { split; [intros [st' [=]] | intros (s & f & [=] & _)]. }
  destruct (Z.eqb_spec status 403) as [->|Hstatus]; simpl.
  { split; [intros [st' [=]] | intros (s & f & [= <- _] & Hs & _); done]. }
  destruct body as [e|[p|fields]]; simpl.
  - unfold prop. rewrite lookup_empty. simpl.
    split; [intros [st' [=]] | intros (s & f & [=] & _)].
  - destruct (loose_eq_null p); simpl;
      (split; [intros [st' [=]] | intros (s & f & [=] & _)]).
  - destruct (truthy (prop fields "accessToken")) eqn:Htok; simpl.
    + rewrite expiry_get_set. split.
      * intros [st' [= <- _]]. by exists status, fields.
      * intros (s & f & [= <- <-] & _ & <- & _). by eexists.
    + split; [intros [st' [=]]|].
      intros (s & f & [= <- <-] & _ & <- & Hv). congruence.
Qed.

(** X5. Elsewhere than on Safari, a cache miss answered, with a status other
    than 403, by valid JSON that is not an object: the body [null] makes
    the property read throw a TypeError, which is neither UNAUTHORIZED nor
    CLOUDFLARE; any other body of this kind throws UNAUTHORIZED.  The cache
    is not written in either case. *)
Theorem getAccessToken_primitive_body w st status p :
  isSafari w = false ->
  truthy (expiry_get cache_maxAge (now st) (cache st) KEY_ACCESS_TOKEN) = false ->
  fetch w session_url (log (EvCacheGet KEY_ACCESS_TOKEN) st)
  = FetchResponse status (BodyValid (DataPrim p)) ->
  status <> 403%Z ->
  exists e st',
    getAccessToken w st = (Throw e, st') /\ cache st' = cache st /\
    (p = VNull -> e = TypeError_read VNull "accessToken" /\
                  e <> UNAUTHORIZED /\ e <> CLOUDFLARE) /\
    (loose_eq_null p = false -> e = UNAUTHORIZED).
Proof.
  intros Hsafari Hmiss Hfetch Hstatus. unfold getAccessToken. run_unfold. simpl.
  rewrite Hmiss, Hsafari, Hfetch. simpl.
  destruct (Z.eqb_spec status 403); [done|]. simpl.
  destruct p; simpl; eexists _, _; (split; [reflexivity|]); repeat split; try done.
Qed.

(** ** The port listener *)

(** X6. The port listener throws exactly when the attempt failed with a
    message not containing 'aborted' and [postMessage] threw in the
    [catch] (the port is disconnected): it then throws the exception of
    [postMessage] and ends in the state in which the attempt failed, with
    nothing posted and the cache entry not deleted.  In every other case,
    a message without a session included, it ends normally. *)
Theorem onMessage_throws_iff w k1 k2 k3 k4 port msg st e' st' :
  onMessage w k1 k2 k3 k4 port msg st = (Throw e', st') <->
  exists sess e,
    session msg = Some sess /\
    attempt w k1 k2 k3 k4 port sess st = (Throw e, st') /\
    includes (message e) "aborted" = false /\
    postMessage w port (error_envelope (message e)) st' = Some e'.
Proof.
  destruct msg as [[sess|]].
  - rewrite onMessage_attempt.
    destruct (attempt w k1 k2 k3 k4 port sess st) as [[[]|e] st1] eqn:Hatt.
    + split; [intros [=]|].
      intros (sess' & e & [= <-] & Hatt' & _). congruence.
    + unfold on_error. run_unfold.
      destruct (includes (message e) "aborted") eqn:Hmsg; simpl.
      * split; [intros [=]|].
        intros (sess' & e0 & [= <-] & Hatt' & Hmsg' & _).
        rewrite Hatt in Hatt'. injection Hatt' as <- <-. congruence.
      * destruct (postMessage w port (error_envelope (message e)) st1)
          as [e1|] eqn:Hpost; simpl.
        -- split.
           ++ intros [= <- <-]. by exists sess, e.
           ++ intros (sess' & e0 & [= <-] & Hatt' & _ & Hpost').
              rewrite Hatt in Hatt'. injection Hatt' as <- <-. congruence.
        -- split; [intros [=]|].
           intros (sess' & e0 & [= <-] & Hatt' & _ & Hpost').
           rewrite Hatt in Hatt'. injection Hatt' as <- <-. congruence.
  - split; [intros [=]|]. intros (sess & e & [=] & _).
Qed.

(** X7. After a cycle that failed with a message not containing 'aborted',
    whatever its family, and whose error envelope was delivered, the cache
    gives no credential at any later time, and the next [getAccessToken],
    in whatever world, goes on from its cache read to the refetch. *)
Theorem failed_cycle_forces_refetch w k1 k2 k3 k4 port sess st e st1 w' t :
  attempt w k1 k2 k3 k4 port sess st = (Throw e, st1) ->
  includes (message e) "aborted" = false ->
  postMessage w port (error_envelope (message e)) st1 = None ->
  let st' := set_now t (snd (onMessage w k1 k2 k3 k4 port (mkMsg (Some sess)) st)) in
  expiry_get cache_maxAge t (cache st') KEY_ACCESS_TOKEN = VUndefined /\
  exists evs,
    turn_events st' (snd (getAccessToken w' st')) =
    EvCacheGet KEY_ACCESS_TOKEN
    :: (if isSafari w' then EvGetUserConfig else EvFetch session_url) :: evs.
Proof.
  intros Hatt Hmsg Hpost st'.
  assert (Hget : expiry_get cache_maxAge t (cache st') KEY_ACCESS_TOKEN = VUndefined).
  { subst st'. rewrite onMessage_attempt, Hatt, on_error_posted by done. simpl.
    unfold expiry_get, expiry_delete. by rewrite lookup_delete_eq. }
  split; [done|]. apply getAccessToken_miss_events.
  change (now st') with t. by rewrite Hget.
Qed.

Lemma classify_first_match k1 k2 k3 k4 k f :
  classify k1 k2 k3 k4 k = Some f ->
  forall f', family_rank f' < family_rank f -> ~ In k (family_keys k1 k2 k3 k4 f').
Proof.
  unfold classify. intros Hc f' Hrank Hin. apply array_includes_In in Hin.
  destruct (array_includes k1 k) eqn:H1.
  { injection Hc as <-. simpl in Hrank. lia. }
  destruct (array_includes k2 k) eqn:H2.
  { injection Hc as <-. destruct f'; simpl in *; try lia; congruence. }
  destruct (array_includes k3 k) eqn:H3.
  { injection Hc as <-. destruct f'; simpl in *; try lia; congruence. }
  destruct (array_includes k4 k) eqn:H4; [|discriminate].
  injection Hc as <-. destruct f'; simpl in *; try lia; congruence.
Qed.

(** X8. A cycle calls at most one backend.  The family of the call is the
    first of the four lists, in the order web, completion, chat, custom,
    that holds the configured model key, also when a later list holds the
    key too; the question it is given is the [question] of the session it
    is given. *)
Theorem cycle_backend_call w k1 k2 k3 k4 port sess st :
  let key := modelName (getUserConfig w st) in
  let calls :=
    backend_calls
      (turn_events st (snd (onMessage w k1 k2 k3 k4 port (mkMsg (Some sess)) st))) in
  length calls <= 1 /\
  forall f q s a,
    In (f, q, s, a) calls ->
    In key (family_keys k1 k2 k3 k4 f) /\
    (forall f', family_rank f' < family_rank f ->
                ~ In key (family_keys k1 k2 k3 k4 f')) /\
    q = prop s "question".
Proof.
  intros key calls. subst calls. rewrite onMessage_backend_calls. fold key.
  destruct (classify k1 k2 k3 k4 key) as [f0|] eqn:Hc; [|split; [simpl; lia | intros ? ? ? ? []]].
  assert (Hone : forall (q0 : jsval) (s0 : gmap string jsval) (a0 : list jsval),
             length [(f0, q0, s0, a0)] <= 1 /\
             (q0 = prop s0 "question" ->
              forall f q s a,
                In (f, q, s, a) [(f0, q0, s0, a0)] ->
                In key (family_keys k1 k2 k3 k4 f) /\
                (forall f', family_rank f' < family_rank f ->
                            ~ In key (family_keys k1 k2 k3 k4 f')) /\
                q = prop s "question")).
  { intros q0 s0 a0. split; [simpl; lia|].
    intros -> f q s a [[= <- <- <- <-]|[]].
    split; [by apply classify_In|]. split; [|done].
    by apply classify_first_match. }
  destruct f0.
  - destruct (getAccessToken w _) as [[token|e] st2].
    + split; [apply Hone | by apply Hone].
    + split; [simpl; lia | intros ? ? ? ? []].
  - split; [apply Hone | by apply Hone].
  - split; [apply Hone | by apply Hone].
  - split; [apply Hone | by apply Hone].
Qed.

Lemma uuid_draws_credential evs :
  Forall credential_event evs -> uuid_draws evs = [].
Proof.
  induction 1 as [|ev evs Hev _ IH]; [done|].
  destruct ev; try destruct Hev; exact IH.
Qed.

Lemma uuid_draws_posts port envs : uuid_draws (map (EvPost port) envs) = [].
Proof. induction envs as [|e envs IH]; [done|]. exact IH. Qed.

Lemma uuid_draws_error port r : uuid_draws (error_events port r) = [].
Proof.
  destruct r as [a|e]; [done|]. simpl.
  by destruct (negb (includes (message e) "aborted")).
Qed.

Lemma uuid_draws_tail port r tail : catch_tail port r tail -> uuid_draws tail = [].
Proof. intros [->| ->]; [done | apply uuid_draws_error]. Qed.

Lemma fetches_posts port envs : fetches (map (EvPost port) envs) = [].
Proof. induction envs as [|e envs IH]; [done|]. exact IH. Qed.

Lemma fetches_error port r : fetches (error_events port r) = [].
Proof.
  destruct r as [a|e]; [done|]. simpl.
  by destruct (negb (includes (message e) "aborted")).
Qed.

Lemma fetches_tail port r tail : catch_tail port r tail -> fetches tail = [].
Proof. intros [->| ->]; [done | apply fetches_error]. Qed.

(** The network requests of one [getAccessToken]. *)
Lemma getAccessToken_fetches w st :
  fetches (turn_events st (snd (getAccessToken w st))) =
  if truthy (expiry_get cache_maxAge (now st) (cache st) KEY_ACCESS_TOKEN) then []
  else if isSafari w then [] else [session_url].
Proof.
  unfold getAccessToken. run_unfold. simpl.
  run_cases;
    (erewrite turn_events_app;
     [|simpl; rewrite <- ?app_assoc; simpl; reflexivity]); done.
Qed.

(** The events of a web-session cycle: the configuration read, the events
    of [getAccessToken], and what follows them. *)
Lemma onMessage_web_trace w k1 k2 k3 k4 port sess st :
  classify k1 k2 k3 k4 (modelName (getUserConfig w st)) = Some WebSession ->
  let st0 := tick w (log EvGetUserConfig st) in
  let s0 := object_at sess st in
  let id1 := uuidv4 w (uuids st) in
  let id2 := uuidv4 w (S (uuids st)) in
  exists rest,
    turn_events st (snd (onMessage w k1 k2 k3 k4 port (mkMsg (Some sess)) st)) =
    EvGetUserConfig :: turn_events st0 (snd (getAccessToken w st0)) ++ rest /\
    match getAccessToken w st0 with
    | (Return token, _) =>
        exists r tail,
          catch_tail port (b_outcome r) tail /\
          rest =
          EvUuid id1
          :: (if loose_eq_null (prop s0 "parentMessageId") then [EvUuid id2] else [])
          ++ EvBackend WebSession port
               (prop (fill_identifiers id1 id2 s0) "question")
               (fill_identifiers id1 id2 s0) [token]
          :: map (EvPost port) (b_posts r) ++ tail
    | (Throw e, _) => catch_tail port (Throw e) rest
    end.
Proof.
  intros Hc st0 s0 id1 id2. rewrite onMessage_attempt.
  unfold attempt, bind, await_getUserConfig. fold st0.
  destruct (getAccessToken_frame w st0) as (_ & _ & evs & Htr0 & _).
  rewrite (turn_events_app _ _ _ Htr0).
  destruct (getAccessToken w st0) as [[token|e] st2] eqn:Hget; simpl in Htr0.
  - destruct (dispatch_web_return w k1 k2 k3 k4 port sess
                (getUserConfig w st) st0 token st2 Hc Hget)
      as (r & st1 & -> & Htr & _).
    change (uuids st0) with (uuids st) in Htr.
    change (object_at sess st0) with s0 in Htr. fold id1 id2 in Htr.
    destruct (b_outcome r) as [[]|e] eqn:Hout.
    + eexists. split; [|exists r, []; split; [by left | reflexivity]].
      simpl. apply turn_events_app. rewrite Htr, Htr0. simpl.
      rewrite <- !app_assoc. simpl. by rewrite app_nil_r.
    + destruct (on_error_run w port e st1) as (r' & st' & tail & -> & Htr' & Htail & _).
      eexists. split; [|exists r, tail; split; [by rewrite Hout | reflexivity]].
      simpl. apply turn_events_app. rewrite Htr', Htr, Htr0. simpl.
      rewrite <- !app_assoc. simpl. do 3 f_equal. by rewrite <- !app_assoc.
  - rewrite (dispatch_web_throw w k1 k2 k3 k4 port sess
               (getUserConfig w st) st0 e st2 Hc Hget).
    destruct (on_error_run w port e st2) as (r' & st' & tail & -> & Htr' & Htail & _).
    exists tail. split; [|done].
    simpl. apply turn_events_app. rewrite Htr', Htr0. simpl. by rewrite <- !app_assoc.
Qed.

(** X9. The identifiers a cycle draws from [uuidv4]: a web-session cycle
    whose credential was obtained draws one, and a second one when the
    session has no [parentMessageId]; every other cycle draws none. *)
Theorem cycle_uuid_draws w k1 k2 k3 k4 port sess st :
  uuid_draws
    (turn_events st (snd (onMessage w k1 k2 k3 k4 port (mkMsg (Some sess)) st))) =
  match classify k1 k2 k3 k4 (modelName (getUserConfig w st)) with
  | Some WebSession =>
      match getAccessToken w (tick w (log EvGetUserConfig st)) with
      | (Return _, _) =>
          uuidv4 w (uuids st)
          :: (if loose_eq_null (prop (object_at sess st) "parentMessageId")
              then [uuidv4 w (S (uuids st))] else [])
      | (Throw _, _) => []
      end
  | _ => []
  end.
Proof.
  destruct (classify k1 k2 k3 k4 (modelName (getUserConfig w st))) as [f|] eqn:Hc.
  - assert (Htoken : f ≠ WebSession ->
      uuid_draws
        (turn_events st (snd (onMessage w k1 k2 k3 k4 port (mkMsg (Some sess)) st)))
      = []).
    { intros Hf.
      destruct (onMessage_token w k1 k2 k3 k4 port sess st f Hc Hf)
        as (r & tail & st' & Hrun & Htail & Hev).
      rewrite Hrun, Hev. unfold uuid_draws. simpl.
      rewrite omap_app. fold (uuid_draws (map (EvPost port) (b_posts r))).
      fold (uuid_draws tail).
      by rewrite uuid_draws_posts, (uuid_draws_tail _ _ _ Htail). }
    destruct f; try (by rewrite Htoken).
    destruct (onMessage_web_trace w k1 k2 k3 k4 port sess st Hc) as (rest & -> & Hrest).
    destruct (getAccessToken_frame w (tick w (log EvGetUserConfig st)))
      as (_ & _ & evs & Htr0 & Hevs).
    rewrite (turn_events_app _ _ _ Htr0).
    unfold uuid_draws at 1. simpl. rewrite omap_app.
    fold (uuid_draws evs). fold (uuid_draws rest).
    rewrite (uuid_draws_credential evs Hevs). simpl.
    destruct (getAccessToken w _) as [[token|e] st2].
    + destruct Hrest as (r & tail & Htail & ->). unfold uuid_draws. simpl. f_equal.
      rewrite omap_app. simpl. rewrite omap_app.
      fold (uuid_draws (map (EvPost port) (b_posts r))).
      fold (uuid_draws tail).
      rewrite uuid_draws_posts, (uuid_draws_tail _ _ _ Htail), app_nil_r.
      by destruct (loose_eq_null _).
    + apply (uuid_draws_tail _ _ _ Hrest).
  - rewrite onMessage_unknown by done.
    unfold turn_events. simpl. by rewrite drop_app_length.
Qed.

(** X10. The network requests of a cycle: none for a token-based family or
    an unknown key; for the web-session family none when the cache gives a
    credential at the time the configuration read has come back, none on
    Safari, and otherwise exactly one, to the session endpoint. *)
Theorem cycle_fetches w k1 k2 k3 k4 port sess st :
  let st0 := tick w (log EvGetUserConfig st) in
  fetches
    (turn_events st (snd (onMessage w k1 k2 k3 k4 port (mkMsg (Some sess)) st))) =
  match classify k1 k2 k3 k4 (modelName (getUserConfig w st)) with
  | Some WebSession =>
      if truthy (expiry_get cache_maxAge (now st0) (cache st0) KEY_ACCESS_TOKEN)
      then []
      else if isSafari w then [] else [session_url]
  | _ => []
  end.
Proof.
  intros st0.
  destruct (classify k1 k2 k3 k4 (modelName (getUserConfig w st))) as [f|] eqn:Hc.
  - assert (Htoken : f ≠ WebSession ->
      fetches
        (turn_events st (snd (onMessage w k1 k2 k3 k4 port (mkMsg (Some sess)) st)))
      = []).
    { intros Hf.
      destruct (onMessage_token w k1 k2 k3 k4 port sess st f Hc Hf)
        as (r & tail & st' & Hrun & Htail & Hev).
      rewrite Hrun, Hev. unfold fetches. simpl.
      rewrite omap_app. fold (fetches (map (EvPost port) (b_posts r))).
      fold (fetches tail).
      by rewrite fetches_posts, (fetches_tail _ _ _ Htail). }
    destruct f; try (by rewrite Htoken).
    destruct (onMessage_web_trace w k1 k2 k3 k4 port sess st Hc) as (rest & -> & Hrest).
    fold st0 in Hrest |- *.
    unfold fetches at 1. simpl. rewrite omap_app.
    fold (fetches (turn_events st0 (snd (getAccessToken w st0)))). fold (fetches rest).
    rewrite getAccessToken_fetches.
    assert (Hnone : fetches rest = []).
    { destruct (getAccessToken w st0) as [[token|e] st2].
      - destruct Hrest as (r & tail & Htail & ->). unfold fetches. simpl.
        rewrite omap_app. simpl. rewrite omap_app.
        fold (fetches (map (EvPost port) (b_posts r))).
        fold (fetches tail).
        rewrite fetches_posts, (fetches_tail _ _ _ Htail), app_nil_r.
        by destruct (loose_eq_null _).
      - apply (fetches_tail _ _ _ Hrest). }
    by rewrite Hnone, app_nil_r.
  - rewrite onMessage_unknown by done.
    unfold turn_events. simpl. by rewrite drop_app_length.
Qed.

(** ** A port and its messages *)

Lemma extends_refl st : extends st st.
Proof. exists []. by rewrite app_nil_r. Qed.

Lemma extends_trans st1 st2 st3 : extends st1 st2 -> extends st2 st3 -> extends st1 st3.
Proof.
  intros [evs1 H1] [evs2 H2]. exists (evs1 ++ evs2).
  by rewrite H2, H1, app_assoc.
Qed.

Lemma turn_events_extends st st' :
  extends st st' -> trace st' = trace st ++ turn_events st st'.
Proof. intros [evs H]. by rewrite (turn_events_app _ _ _ H). Qed.

Lemma turn_events_trans st1 st2 st3 :
  extends st1 st2 -> extends st2 st3 ->
  turn_events st1 st3 = turn_events st1 st2 ++ turn_events st2 st3.
Proof.
  intros H12 H23. apply turn_events_app.
  rewrite (turn_events_extends _ _ H23), (turn_events_extends _ _ H12).
  by rewrite app_assoc.
Qed.

Lemma onMessage_extends w k1 k2 k3 k4 port msg st :
  extends st (snd (onMessage w k1 k2 k3 k4 port msg st)).
Proof.
  assert (Hk : forall b, keeps (extends b) (onMessage w k1 k2 k3 k4 port msg)).
  { intros b.
    assert (Hcall : forall sess f q a, keeps (extends b) (call_backend w f port q sess a)).
    { intros sess f q a st0 H0.
      destruct (call_backend_run w f port q sess a st0) as (st' & -> & Htr & _).
      apply (extends_trans _ st0); [done | by eexists]. }
    assert (Hevent : forall {A} (c : M A),
               (forall st0, extends st0 (snd (c st0))) -> keeps (extends b) c).
    { intros A c Hc st0 H0. by apply (extends_trans _ st0). }
    assert (Hlog : forall ev st0, extends st0 (log ev st0)) by (by eexists).
    assert (Hget : keeps (extends b) (getAccessToken w)).
    { apply Hevent. intros st0.
      destruct (getAccessToken_frame w st0) as (_ & _ & evs & Htr & _). by eexists. }
    assert (Hsame : forall st0 st1, trace st1 = trace st0 -> extends st0 st1).
    { intros st0 st1 H. exists []. by rewrite app_nil_r. }
    unfold onMessage. destruct (session msg) as [sess|]; [|apply keeps_ret].
    apply keeps_bind.
    { apply Hevent. intros st0. apply (extends_trans _ (log EvGetUserConfig st0));
        [apply Hlog | by apply Hsame]. }
    intros config. apply keeps_try_catch.
    - unfold dispatch.
      repeat match goal with
             | |- keeps _ (if ?c then _ else _) => destruct c
             | |- keeps _ (bind _ _) => apply keeps_bind; [|intros ?]
             | |- keeps _ (ret _) => apply keeps_ret
             | |- keeps _ (getAccessToken _) => apply Hget
             | |- keeps _ (call_backend _ _ _ _ _ _) => apply Hcall
             | |- keeps _ (uuid _) =>
                 apply Hevent; intros st0;
                 apply (extends_trans _ (set_uuids (S (uuids st0)) st0));
                 [by apply Hsame | apply Hlog]
             | |- keeps _ (obj_get _ _) => apply Hevent; intros st0; apply extends_refl
             | |- keeps _ (obj_set _ _ _) => apply Hevent; intros st0; by apply Hsame
             end.
    - intros e. apply Hevent. intros st0.
      destruct (on_error_run w port e st0) as (r' & st' & tail & -> & Htr & _).
      by eexists. }
  apply Hk, extends_refl.
Qed.

Lemma onConnect_extends w k1 k2 k3 k4 port msgs st :
  extends st (onConnect w k1 k2 k3 k4 port msgs st).
Proof.
  revert st. induction msgs as [|msg msgs IH]; intros st; simpl.
  - apply extends_refl.
  - eapply extends_trans; [apply onMessage_extends | apply IH].
Qed.

(** X11. Over any sequence of messages on a port, the backend calls made
    are at most as many as the messages that carry a session: a message
    without one triggers nothing, and one with a session triggers at most
    one call. *)
Theorem onConnect_backend_calls_bound w k1 k2 k3 k4 port msgs st :
  length (backend_calls (turn_events st (onConnect w k1 k2 k3 k4 port msgs st)))
  <= length (List.filter has_session msgs).
Proof.
  revert st. induction msgs as [|msg msgs IH]; intros st.
  - simpl. unfold turn_events. rewrite drop_all. simpl. lia.
  - change (onConnect w k1 k2 k3 k4 port (msg :: msgs) st)
      with (onConnect w k1 k2 k3 k4 port msgs
              (snd (onMessage w k1 k2 k3 k4 port msg st))).
    rewrite (turn_events_trans st (snd (onMessage w k1 k2 k3 k4 port msg st)));
      [|apply onMessage_extends | apply onConnect_extends].
    rewrite backend_calls_app, length_app.
    specialize (IH (snd (onMessage w k1 k2 k3 k4 port msg st))).
    set (later := length (backend_calls (turn_events _ (onConnect _ _ _ _ _ _ _ _)))) in *.
    destruct msg as [[sess|]].
    + pose proof (onMessage_backend_calls w k1 k2 k3 k4 port sess st) as Hc.
      cbv zeta in Hc. rewrite Hc.
      change (List.filter has_session (mkMsg (Some sess) :: msgs))
        with (mkMsg (Some sess) :: List.filter has_session msgs).
      destruct (classify _ _ _ _ _) as [[]|]; simpl; try lia.
      destruct (getAccessToken _ _) as [[token|e] st2]; simpl; lia.
    + change (List.filter has_session (mkMsg None :: msgs))
        with (List.filter has_session msgs).
      change (snd (onMessage w k1 k2 k3 k4 port (mkMsg None) st)) with st.
      unfold turn_events at 1. rewrite drop_all. simpl. lia.
Qed.

(** ** The FEEDBACK listener *)

(** X12. A FEEDBACK message sends its payload exactly when a credential is
    obtained, once, with that credential, which is truthy.  When
    [getAccessToken] throws, the listener ends with the same exception:
    nothing is sent and, there being no [catch] here, the cache is not
    invalidated.  In both cases nothing is posted on a port and no backend
    is called. *)
Theorem onFeedback_run w send message st fed :
  rm_type message = "FEEDBACK" ->
  let out := onFeedback w send message st fed in
  match getAccessToken w st with
  | (Return token, st1) =>
      truthy token = true /\
      snd out = fed ++ [(token, rm_data message)] /\
      fst (fst out) = send token (rm_data message) st1
  | (Throw e, st1) =>
      fst (fst out) = Throw e /\ snd out = fed /\
      cache (snd (fst out)) = cache st
  end /\
  Forall credential_event (turn_events st (snd (fst out))).
Proof.
  intros Htype out. subst out. unfold onFeedback. rewrite Htype. simpl.
  destruct (getAccessToken_frame w st) as (_ & _ & evs & Htr & Hevs).
  destruct (getAccessToken w st) as [[token|e] st1] eqn:Hget; simpl in *.
  - split.
    + split; [|done]. by destruct (getAccessToken_return_cached w st token st1 Hget).
    + unfold turn_events. simpl. by rewrite Htr, drop_app_length.
  - split.
    + repeat split. by apply (getAccessToken_throw_cache w st e).
    + unfold turn_events. by rewrite Htr, drop_app_length.
Qed.

(** ** The context menu *)

Lemma append_cons a p s :
  String.append (String a p) s = String a (String.append p s).
Proof. reflexivity. Qed.

Lemma append_empty s : String.append "" s = s.
Proof. reflexivity. Qed.

Lemma starts_with_append p s : starts_with p (String.append p s) = true.
Proof.
  induction p as [|a p IH]; [done|].
  rewrite append_cons. simpl. by rewrite Ascii.eqb_refl, IH.
Qed.

Lemma drop_chars_append p s : drop_chars (String.length p) (String.append p s) = s.
Proof.
  induction p as [|a p IH]; [by rewrite append_empty|].
  rewrite append_cons. exact IH.
Qed.

(** Removing the first occurrence of a prefix leaves the rest. *)
Lemma replace_first_prefix p s : replace_first (String.append p s) p = s.
Proof.
  destruct (String.append p s) as [|c r] eqn:E; simpl; rewrite <- E;
    by rewrite starts_with_append, drop_chars_append.
Qed.

Lemma create_all_In it items acc :
  In it (fold_left (fun ms i => Menu.create_item i ms) items acc) ->
  In it acc \/ In it items.
Proof.
  revert acc. induction items as [|i items IH]; intros acc; simpl; [by left|].
  intros H. apply IH in H as [H|H]; [|by right; right].
  unfold Menu.create_item in H. destruct (existsb _ _); [by left|].
  apply in_app_or in H as [H|[<-|[]]]; [by left | by right; left].
Qed.

Lemma create_all_distinct items acc :
  NoDup (map Menu.id (acc ++ items)) ->
  fold_left (fun ms i => Menu.create_item i ms) items acc = acc ++ items.
Proof.
  revert acc. induction items as [|i items IH]; intros acc Hnd; simpl.
  - by rewrite app_nil_r.
  - assert (Hfree : existsb (String.eqb (Menu.id i)) (map Menu.id acc) = false).
    { apply not_true_is_false. intros Hex.
      apply existsb_exists in Hex as (x & Hx & Heq). apply String.eqb_eq in Heq.
      subst x. rewrite map_app in Hnd. simpl in Hnd.
      apply NoDup_app in Hnd as (_ & Hdisj & _).
      apply (Hdisj (Menu.id i)); [by apply list_elem_of_In | by left]. }
    unfold Menu.create_item at 2. rewrite Hfree.
    rewrite IH; rewrite <- app_assoc; done.
Qed.

Section MenuFacts.

Variable menuConfig : list (string * string).
Variables selectionTools selectionToolsDesc : list string.

Local Abbreviation refresh :=
  (Menu.refreshMenu menuConfig selectionTools selectionToolsDesc).
Local Abbreviation items :=
  (Menu.menu_items menuConfig selectionTools selectionToolsDesc).

Lemma menu_items_prefixed it :
  In it items -> exists key, Menu.id it = String.append Menu.menuId key.
Proof.
  unfold Menu.menu_items. intros [<-|Hin]; [by exists ""|].
  apply in_app_or in Hin as [Hin|[<-|Hin]].
  - apply in_map_iff in Hin as ([k label] & <- & _). by exists k.
  - by exists "separator1".
  - apply list_elem_of_In, elem_of_lookup_imap in Hin as (i & key & -> & _).
    by exists key.
Qed.

(** X13. Whatever the menu held before a rebuild, every item of the rebuilt
    menu is an item of the present configuration, with an id that starts
    with the id of the root; a click on it, with one listener registered,
    sends the tab one CREATE_MENU message whose [itemId] is the rest of
    that id, so that the root id followed by [itemId] is the id clicked. *)
Theorem click_reports_key b it sel tab :
  In it (Menu.menus (refresh b)) ->
  In it items /\
  exists key,
    Menu.id it = String.append Menu.menuId key /\
    Menu.sent (Menu.click (Menu.mkInfo (Menu.id it) sel) tab
                          (refresh Menu.fresh_browser))
    = [(tab, Menu.mkTabMessage "CREATE_MENU" key sel)].
Proof.
  rewrite Menu.refreshMenu_menus. intros Hin.
  apply create_all_In in Hin as [[]|Hin]. split; [done|].
  destruct (menu_items_prefixed it Hin) as [key Hkey]. exists key. split; [done|].
  rewrite Menu.click_sent, Menu.refreshMenu_onClicked, Menu.refreshMenu_sent.
  simpl. by rewrite Hkey, replace_first_prefix.
Qed.


(** X15. With distinct ids, the item of a selection tool that has a
    description at its index sits after the root, the tools and the
    separator, at the place of its index, and its title is that
    description; and no item follows the place of the last selection tool,
    so that a description beyond the end of the tools gets no item. *)
Theorem refreshMenu_pairs_descriptions b i key desc :
  NoDup (map Menu.id items) ->
  selectionTools !! i = Some key ->
  selectionToolsDesc !! i = Some desc ->
  Menu.menus (refresh b) !! (2 + length menuConfig + i) =
  Some (Menu.mkItem (String.append Menu.menuId key) (Some Menu.menuId)
                    (Some desc) ["selection"] None) /\
  Menu.menus (refresh b) !! (2 + length menuConfig + length selectionTools) = None.
Proof.
  intros Hnd Hkey Hdesc. rewrite Menu.refreshMenu_menus.
  rewrite (create_all_distinct items []) by done. rewrite app_nil_l.
  split.
  - unfold Menu.menu_items. simpl.
    rewrite lookup_app_r; rewrite length_map; [|lia].
    replace (S (length menuConfig + i) - length menuConfig) with (S i) by lia.
    simpl. rewrite list_lookup_imap, Hkey. simpl.
    unfold Menu.selection_item. by rewrite Hdesc.
  - apply lookup_ge_None_2. unfold Menu.menu_items. simpl.
    rewrite length_app, length_map. simpl. rewrite length_imap. lia.
Qed.

(** X16. Every rebuild registers one more click listener and removes none:
    after [n] rebuilds of a freshly loaded script, one click sends the tab
    [n] identical CREATE_MENU messages. *)
Theorem click_after_rebuilds n info tab :
  Menu.sent (Menu.click info tab (Nat.iter n refresh Menu.fresh_browser)) =
  replicate n (tab, Menu.mkTabMessage "CREATE_MENU"
                      (replace_first (Menu.menuItemId info) Menu.menuId)
                      (Menu.selectionText info)).
Proof.
  assert (H : Menu.onClicked
                (Nat.iter n (Menu.refreshMenu menuConfig selectionTools
                                              selectionToolsDesc)
                          Menu.fresh_browser)
              = replicate n (Menu.ClickListener Menu.menuId) /\
              Menu.sent
                (Nat.iter n (Menu.refreshMenu menuConfig selectionTools
                                              selectionToolsDesc)
                          Menu.fresh_browser) = []).
  { induction n as [|n [IHl IHs]]; [done|]. rewrite Nat.iter_succ.
    rewrite Menu.refreshMenu_onClicked, Menu.refreshMenu_sent, IHl, IHs.
    split; [|done]. clear. induction n as [|n IH]; [done|]. simpl. by rewrite IH. }
  destruct H as [Hl Hs]. rewrite Menu.click_sent, Hl, Hs. simpl.
  clear. induction n as [|n IH]; [done|]. simpl. by rewrite IH.
Qed.

End MenuFacts.

(** ** More on the cache and the [catch] *)

(** X17. A call of [getAccessToken] that returns on a cache hit leaves the
    cache and the clock as they were, so reading the credential does not
    prolong its life; one that returns on a miss has stored what it returns
    with the time of the return, the time at which the credential came in,
    not the time of the call. *)
Theorem getAccessToken_store_time w st v st' :
  getAccessToken w st = (Return v, st') ->
  if truthy (expiry_get cache_maxAge (now st) (cache st) KEY_ACCESS_TOKEN)
  then cache st' = cache st /\ now st' = now st
  else cache st' = <[KEY_ACCESS_TOKEN := mkEntry v (now st')]> (cache st).
Proof.
  unfold getAccessToken. run_unfold. simpl.
  run_cases; intros [= <- <-]; simpl; rewrite ?expiry_get_set; done.
Qed.

(** X18. What [getAccessToken] does and does not do: it leaves the session
    objects and the count of identifiers drawn, and the events it adds are
    configuration reads, network requests and reads and writes of the cache:
    it posts nothing, calls no backend and never deletes from the cache. *)
Theorem getAccessToken_effects w st :
  let st' := snd (getAccessToken w st) in
  heap st' = heap st /\ uuids st' = uuids st /\
  trace st' = trace st ++ turn_events st st' /\
  Forall credential_event (turn_events st st') /\
  backend_calls (turn_events st st') = [] /\
  (forall port, posted_on port (turn_events st st') = []).
Proof.
  intros st'. subst st'.
  destruct (getAccessToken_frame w st) as (Hheap & Huuid & evs & Htr & Hevs).
  rewrite (turn_events_app _ _ _ Htr).
  repeat split; try done.
  - by apply backend_calls_credential.
  - intros port. clear Htr. induction Hevs as [|ev evs Hev _ IH]; [done|].
    destruct ev; try destruct Hev; exact IH.
Qed.


Lemma starts_with_spec p s :
  starts_with p s = true <-> exists rest, s = String.append p rest.
Proof.
  revert s. induction p as [|a p IH]; intros s.
  - split; [by exists s | done].
  - destruct s as [|b s]; simpl.
    + split; [done | intros [rest [=]]].
    + rewrite andb_true_iff, Ascii.eqb_eq, IH. split.
      * intros (-> & rest & ->). by exists rest.
      * intros (rest & [= -> ->]). split; [done | by exists rest].
Qed.

Lemma includes_unfold s sub :
  includes s sub =
  starts_with sub s || match s with
                       | EmptyString => false
                       | String _ s' => includes s' sub
                       end.
Proof. by destruct s. Qed.

(** [includes] finds [sub] exactly in the strings that can be cut around it. *)
Lemma includes_spec s sub :
  includes s sub = true <->
  exists before rest, s = String.append before (String.append sub rest).
Proof.
  split.
  - induction s as [|a s IH]; rewrite includes_unfold, orb_true_iff.
    + intros [H|[=]]. apply starts_with_spec in H as [rest ->]. by exists "", rest.
    + intros [H|H].
      * apply starts_with_spec in H as [rest ->]. by exists "", rest.
      * destruct (IH H) as (before & rest & ->). by exists (String a before), rest.
  - intros (before & rest & ->). induction before as [|a before IH].
    + rewrite append_empty, includes_unfold, starts_with_append. done.
    + rewrite append_cons, includes_unfold, IH. apply orb_true_r.
Qed.

(** X20. The [catch] leaves the state exactly as it found it, posting
    nothing and deleting nothing, if and only if the message of the
    exception can be cut into a text, the word 'aborted' and a text, or
    [postMessage] throws; and it ends normally if and only if the message
    can be cut in that way or [postMessage] delivers the envelope. *)
Theorem on_error_swallows_iff w port e st :
  (snd (on_error w port e st) = st <->
   (exists before rest,
       message e = String.append before (String.append "aborted" rest)) \/
   postMessage w port (error_envelope (message e)) st <> None) /\
  (fst (on_error w port e st) = Return tt <->
   (exists before rest,
       message e = String.append before (String.append "aborted" rest)) \/
   postMessage w port (error_envelope (message e)) st = None).
Proof.
  rewrite <- !includes_spec. unfold on_error. run_unfold.
  destruct (includes (message e) "aborted"); simpl.
  - split; split; auto.
  - destruct (postMessage w port (error_envelope (message e)) st) as [e'|]; simpl.
    + split; split; auto.
      * intros [=]. 
      * intros [[=]|[=]].
    + split; split; auto.
      * intros H. apply (f_equal trace) in H. simpl in H.
        apply (f_equal length) in H. rewrite !length_app in H. simpl in H. lia.
      * intros [[=]|H]; done.
Qed.

(** * More sample runs, checked *)

Module Runs2.
Import Sample Sample2.

Lemma getAccessToken_again_witness :
  let w := world "chatgptFree" session_ok answering in
  truthy (VStr "tok") = true /\
  getAccessToken offline st_cached =
  (Return (VStr "tok"),
   log (EvCacheGet KEY_ACCESS_TOKEN) (log (EvCacheGet KEY_ACCESS_TOKEN) st_cached)).
Proof.
  intros w.
  apply (getAccessToken_again w offline (init_state 0) (VStr "tok") st_cached).
  vm_compute. reflexivity.
Defined.

Lemma getAccessToken_safari_witness :
  let w := safari (VStr "from-config") in
  let st := init_state 0 in
  let st1 := log (EvCacheGet KEY_ACCESS_TOKEN) st in
  let token := accessToken (getUserConfig w st1) in
  let st' := snd (getAccessToken w st) in
  fetches (turn_events st st') = [] /\
  (truthy token = true ->
   fst (getAccessToken w st) = Return token /\
   cache st' !! KEY_ACCESS_TOKEN = Some (mkEntry token (now st')) /\
   now st' = (now st + latency w (log EvGetUserConfig st1))%Z) /\
  (truthy token = false ->
   fst (getAccessToken w st) = Throw UNAUTHORIZED /\ cache st' = cache st).
Proof.
  intros w st.
  apply (getAccessToken_safari w st eq_refl eq_refl).
Defined.

Lemma getAccessToken_network_error_witness :
  exists st',
    getAccessToken offline (init_state 0) = (Throw (mkError "Failed to fetch"), st') /\
    cache st' = cache (init_state 0) /\
    turn_events (init_state 0) st' =
    [EvCacheGet KEY_ACCESS_TOKEN; EvFetch session_url].
Proof.
  apply (getAccessToken_network_error offline (init_state 0)
           (mkError "Failed to fetch") eq_refl eq_refl eq_refl).
Defined.

Lemma getAccessToken_succeeds_iff_witness :
  let w := world "chatgptFree" session_ok answering in
  (exists st', getAccessToken w (init_state 0) = (Return (VStr "tok"), st')) <->
  (exists status fields,
      fetch w session_url (log (EvCacheGet KEY_ACCESS_TOKEN) (init_state 0))
      = FetchResponse status (BodyValid (DataObject fields)) /\
      status <> 403%Z /\ prop fields "accessToken" = VStr "tok" /\
      truthy (VStr "tok") = true).
Proof.
  intros w.
  apply (getAccessToken_succeeds_iff w (init_state 0) (VStr "tok") eq_refl eq_refl).
Defined.

Lemma getAccessToken_primitive_body_witness :
  let w := world "chatgptFree" (FetchResponse 200 (BodyValid (DataPrim VNull)))
                 answering in
  exists e st',
    getAccessToken w (init_state 0) = (Throw e, st') /\
    cache st' = cache (init_state 0) /\
    (VNull = VNull -> e = TypeError_read VNull "accessToken" /\
                      e <> UNAUTHORIZED /\ e <> CLOUDFLARE) /\
    (loose_eq_null VNull = false -> e = UNAUTHORIZED).
Proof.
  intros w.
  apply (getAccessToken_primitive_body w (init_state 0) 200 VNull
           eq_refl eq_refl eq_refl).
  discriminate.
Defined.

(** A cached credential, then a token-based cycle whose backend fails. *)
Lemma failed_cycle_forces_refetch_witness :
  let w := world "gptApiDavinci" session_ok (failing "rate limited") in
  let st := set_heap {[ 1 := first_turn ]} st_cached in
  let st' := set_now 20
               (snd (onMessage w web_keys gpt_keys chat_keys custom_keys 7
                               (mkMsg (Some 1)) st)) in
  expiry_get cache_maxAge (now st) (cache st) KEY_ACCESS_TOKEN = VStr "tok" /\
  expiry_get cache_maxAge 20 (cache st') KEY_ACCESS_TOKEN = VUndefined /\
  exists evs,
    turn_events st' (snd (getAccessToken w st')) =
    EvCacheGet KEY_ACCESS_TOKEN
    :: (if isSafari w then EvGetUserConfig else EvFetch session_url) :: evs.
Proof.
  intros w st. split; [reflexivity|].
  apply (failed_cycle_forces_refetch w web_keys gpt_keys chat_keys custom_keys 7 1 st
           (mkError "rate limited")
           (snd (attempt w web_keys gpt_keys chat_keys custom_keys 7 1 st)) w 20).
  - vm_compute. reflexivity.
  - reflexivity.
  - reflexivity.
Defined.

Lemma onFeedback_run_witness :
  let w := world "chatgptFree" session_ok answering in
  let message := mkRuntimeMessage "FEEDBACK" (VStr "thumbsUp") in
  let out := onFeedback w accepting message (init_state 0) [] in
  match getAccessToken w (init_state 0) with
  | (Return token, st1) =>
      truthy token = true /\
      snd out = [] ++ [(token, rm_data message)] /\
      fst (fst out) = accepting token (rm_data message) st1
  | (Throw e, st1) =>
      fst (fst out) = Throw e /\ snd out = [] /\
      cache (snd (fst out)) = cache (init_state 0)
  end /\
  Forall credential_event (turn_events (init_state 0) (snd (fst out))).
Proof.
  intros w message.
  apply (onFeedback_run w accepting message (init_state 0) [] eq_refl).
Defined.

Lemma sample_menu_distinct :
  NoDup (map Menu.id (Menu.menu_items menuConfig selectionTools selectionToolsDesc)).
Proof. apply (bool_decide_unpack _). by vm_compute. Qed.

Lemma click_reports_key_witness :
  let explain :=
    Menu.mkItem "ChatGPTBox-Menuexplain" (Some Menu.menuId) (Some "Explain")
                ["selection"] None in
  In explain (Menu.menu_items menuConfig selectionTools selectionToolsDesc) /\
  exists key,
    Menu.id explain = String.append Menu.menuId key /\
    Menu.sent (Menu.click (Menu.mkInfo (Menu.id explain) (VStr "hi")) 7
                 (Menu.refreshMenu menuConfig selectionTools selectionToolsDesc
                                   Menu.fresh_browser))
    = [(7, Menu.mkTabMessage "CREATE_MENU" key (VStr "hi"))].
Proof.
  intros explain.
  apply (click_reports_key menuConfig selectionTools selectionToolsDesc
           Menu.fresh_browser explain (VStr "hi") 7).
  vm_compute. do 6 right. left. reflexivity.
Defined.


(** The second selection tool and its description. *)
Lemma refreshMenu_pairs_descriptions_witness :
  let menu := Menu.menus (Menu.refreshMenu menuConfig selectionTools selectionToolsDesc
                                           Menu.fresh_browser) in
  menu !! (2 + length menuConfig + 1) =
  Some (Menu.mkItem (String.append Menu.menuId "summary") (Some Menu.menuId)
                    (Some "Summary") ["selection"] None) /\
  menu !! (2 + length menuConfig + length selectionTools) = None.
Proof.
  intros menu.
  apply (refreshMenu_pairs_descriptions menuConfig selectionTools selectionToolsDesc
           Menu.fresh_browser 1 "summary" "Summary" sample_menu_distinct
           eq_refl eq_refl).
Defined.

Lemma getAccessToken_store_time_witness :
  let w := world "chatgptFree" session_ok answering in
  if truthy (expiry_get cache_maxAge (now (init_state 0)) (cache (init_state 0))
                        KEY_ACCESS_TOKEN)
  then cache st_cached = cache (init_state 0) /\ now st_cached = now (init_state 0)
  else cache st_cached =
       <[KEY_ACCESS_TOKEN := mkEntry (VStr "tok") (now st_cached)]>
         (cache (init_state 0)).
Proof.
  intros w.
  apply (getAccessToken_store_time w (init_state 0) (VStr "tok") st_cached).
  vm_compute. reflexivity.
Defined.


End Runs2.
